(** * Taxi fleet allocation: demand, optimisation, sensitivity and map

    A shallow embedding of [sensitivity.py] ([load_demand],
    [solve_allocation], [run_sensitivity], [marginal_value_per_hour]), of the
    script [optimize.py], of the aggregation of [data_clean_up.py] and of
    the layers of [visualize.py].

    Conventions of the embedding.
    - Python [int] is [Z]; Python [float] is a rational [Q], the number that
      a finite float denotes. Arithmetic on floats is written exactly where
      rounding plays no part in what is stated (comparisons, minima,
      inequalities that rounding keeps); the module [Binary64] gives the
      rounding of binary64 and the float total of a column, for the
      statement that depends on it.
    - A Python [dict] is a stdpp [gmap]; indexing [d[k]] raises [KeyError]
      on an absent key, [d.get(k, v)] falls back to [v].
    - The MILP solver (CBC behind PuLP) is an oracle: a function from the
      history of earlier calls, the time limit and the submitted problem to a
      status, a wall-clock runtime and a partial valuation of the variables.
      It answers every call (a solver that crashes is outside the model).
      Every call is appended to a log, so that "a solve was attempted" is
      observable.
    - The parts of pandas the code relies on are modelled as far as the code
      uses them: frames built from a list of dicts, [sort_values] by label,
      [unique], column selection, [astype], [groupby] with [size] and
      [mean], and a left [merge].
    - Column names are ASCII text.
    - The flag [msg] (solver verbosity) changes no result and is left out. *)

From Stdlib Require Import ZArith QArith Qminmax Qround Lqa Lia List String Ascii.
From Stdlib Require Import Sorting.Sorted Sorting.Permutation.
From stdpp Require Import gmap strings list fin_maps.

Local Open Scope Z_scope.

(** ** Python values, exceptions and control *)

Module Py.

(** The exceptions that the modelled code can raise. *)
Inductive exn : Type :=
| KeyError_pair (a h : Z)            (* d[(a, h)] on an absent pair *)
| KeyError_hour (h : Z)              (* hour_caps[h] on an absent hour *)
| KeyError_label (label : string)    (* sort_values by an absent label *)
| ValueError_missing (n : string) (found : list string)
                                     (* load_demand's own ValueError *)
| ValueError_cast (label : string)   (* astype on a cell that does not convert *)
| ValueError_not_unique (label : string)
                                     (* sort_values by a duplicated label *)
| TypeError_round.                   (* round(None, 2) *)

Inductive result (A : Type) : Type :=
| Ok (a : A)
| Raise (e : exn).
Arguments Ok {A} a.
Arguments Raise {A} e.

Definition rbind {A B} (m : result A) (k : A → result B) : result B :=
  match m with
  | Ok a => k a
  | Raise e => Raise e
  end.

(** [[f(x) for x in l]] where [f] may raise: the first failure wins. *)
Fixpoint rmap {A B} (f : A → result B) (l : list A) : result (list B) :=
  match l with
  | [] => Ok []
  | x :: l' =>
      rbind (f x) (λ y, rbind (rmap f l') (λ ys, Ok (y :: ys)))
  end.

(** Stable insertion sort; [leb x y] reads "x may stand before y". An
    element is put before the first element it may stand before, so equal
    keys keep their order (Python's [sorted], pandas' [lexsort]). *)
Section Sort.
Context {A : Type} (leb : A → A → bool).

Fixpoint insert_sorted (x : A) (l : list A) : list A :=
  match l with
  | [] => [x]
  | y :: l' => if leb x y then x :: y :: l' else y :: insert_sorted x l'
  end.

Definition sort_stable (l : list A) : list A := foldr insert_sorted [] l.

(** The order that [leb] decides. *)
Definition before (x y : A) : Prop := leb x y = true.
End Sort.

(** [sorted(l)] on integers. *)
Definition sorted (l : list Z) : list Z := sort_stable Z.leb l.

(** [Series.unique()]: distinct values in order of first appearance. *)
Fixpoint unique (l : list Z) : list Z :=
  match l with
  | [] => []
  | x :: l' => x :: filter (λ y, y ≠ x) (unique l')
  end.

(** [sum] of a float column. *)
Definition Qsum (l : list Q) : Q := foldr Qplus 0%Q l.

(** [d.get(k, v)]. *)
Definition get {K V} `{Countable K} (d : gmap K V) (k : K) (v : V) : V :=
  default v (d !! k).

End Py.
Export Py.

(** ** Float arithmetic with its rounding *)

(** IEEE 754 binary64, the [float] of Python and of numpy, for finite
    values: a float is the rational it denotes, and the result of an
    operation is the exact result rounded to the nearest float, a tie going
    to the float with the even significand. Overflow is outside the model.
    The statements below use exact rationals wherever rounding plays no
    part; this module is for the totals in which it does. *)
Module Binary64.

(** To the nearest integer, a tie to the even one. *)
Definition nearest_even (q : Q) : Z :=
  let n := Qfloor q in
  match (q - inject_Z n ?= 1 # 2)%Q with
  | Lt => n
  | Gt => n + 1
  | Eq => if Z.even n then n else n + 1
  end.

Definition pow2 (e : Z) : Q := Qpower 2 e.

(** The binary exponent [e] of a positive number: [2^e <= q < 2^(e+1)]. *)
Definition exponent (q : Q) : Z :=
  let e := Z.log2 (Qnum q) - Z.log2 (Z.pos (Qden q)) in
  if Qle_bool (pow2 e) q then e else e - 1.

(** A positive number rounded to a significand of 53 bits (fewer below
    [2^-1022], where the spacing of the floats stays [2^-1074]). *)
Definition round_pos (q : Q) : Q :=
  let s := Z.max (exponent q - 52) (-1074) in
  (inject_Z (nearest_even (q / pow2 s)) * pow2 s)%Q.

(** Rounding to the nearest float. *)
Definition fl (q : Q) : Q :=
  match (q ?= 0)%Q with
  | Eq => 0%Q
  | Gt => round_pos q
  | Lt => (- round_pos (- q))%Q
  end.

Definition add (x y : Q) : Q := fl (x + y).


End Binary64.

(** ** The part of pandas the code uses *)

Module Pandas.

(** A frame whose rows are records of type [R]; [columns] are its labels. *)
Record DataFrame (R : Type) : Type := mkDataFrame {
  columns : list string;
  records : list R
}.
Arguments mkDataFrame {R} columns records.
Arguments columns {R} d.
Arguments records {R} d.

(** [pd.DataFrame(rows)] for a list of dicts that all have the keys
    [keys]: the labels are the union of the keys of the rows, hence there
    is no label at all when [rows] is empty. *)
Definition from_dicts {R} (keys : list string) (rows : list R) : DataFrame R :=
  mkDataFrame (match rows with [] => [] | _ :: _ => keys end) rows.

(** [df.sort_values(by).reset_index(drop=True)]: each label of [by] is
    looked up first, and a label that is not a column raises [KeyError];
    then the rows are sorted by their keys, compared by [leb]. The sort is
    stable, as pandas' is for several labels; for one label pandas may
    reorder rows with equal keys, which the code never has (it sorts
    distinct hours). *)
Definition sort_values {R} (by_ : list string) (leb : R → R → bool)
    (df : DataFrame R) : result (DataFrame R) :=
  match List.find (λ k, negb (bool_decide (k ∈ columns df))) by_ with
  | Some k => Raise (KeyError_label k)
  | None => Ok (mkDataFrame (columns df) (sort_stable leb (records df)))
  end.

End Pandas.

(** ** The part of PuLP the code uses *)

Module Pulp.

(** The decision variables: [x[(a, h)]] and [u[(a, h)]]. *)
Inductive Var : Type :=
| X (a h : Z)
| U (a h : Z).

Inductive Cat : Type := LpInteger | LpContinuous.

Inductive Sense : Type := GE | LE.

(** The names of the constraints: those of [sensitivity.py] and those of
    [optimize.py]. *)
Inductive CName : Type :=
| cover (a h : Z)              (* f"cover_a{a}_h{h}" *)
| fleetcap (h : Z)             (* f"fleetcap_h{h}" *)
| n_demand_cover (a h : Z)     (* f"demand_cover_{a}_{h}" *)
| n_fleet_cap_hour (h : Z).    (* f"fleet_cap_hour_{h}" *)

(** How the variables of a problem are named. *)
Inductive VarNames : Type :=
| dicts_names        (* LpVariable.dicts("x", keys): "x_" and the key *)
| underscore_names.  (* LpVariable(f"x_{a}_{h}") *)

(** A linear expression: a list of terms [coefficient * variable]. *)
Definition LinExpr : Type := list (Q * Var).

Record Constraint : Type := mkConstraint {
  c_name : CName;
  c_lhs : LinExpr;
  c_sense : Sense;
  c_rhs : Q
}.

(** [LpProblem(name, sense=LpMinimize)] with the variable dictionaries [x]
    and [u] (all with [lowBound=0]; [x] of category [x_cat], [u]
    continuous). *)
Record LpProblem : Type := mkLpProblem {
  p_name : string;
  var_names : VarNames;
  x_cat : Cat;
  x_keys : list (Z * Z);
  u_keys : list (Z * Z);
  objective : LinExpr;
  constraints : list Constraint
}.

(** [pl.LpStatus]. *)
Inductive LpStatus : Type :=
| Optimal | NotSolved | Infeasible | Unbounded | Undefined.

(** What a solve leaves behind: the status, the wall-clock time of the
    call, and [v.value()] for each variable ([None] when unset). *)
Record Solution : Type := mkSolution {
  status : LpStatus;
  runtime : Q;
  value : Var → option Q
}.

(** One call [prob.solve(PULP_CBC_CMD(timeLimit=time_limit))]. *)
Record SolverCall : Type := mkSolverCall {
  call_problem : LpProblem;
  call_time_limit : option Z
}.

Definition Log : Type := list SolverCall.

(** The solver: its answer may depend on what was solved before. *)
Definition Solver : Type := Log → SolverCall → Solution.

(** Code that calls the solver and may raise. *)
Definition Run (A : Type) : Type := Log → result A * Log.

Definition ret {A} (a : A) : Run A := λ log, (Ok a, log).

Definition bind {A B} (m : Run A) (k : A → Run B) : Run B :=
  λ log, match m log with
         | (Ok a, log') => k a log'
         | (Raise e, log') => (Raise e, log')
         end.

Definition lift {A} (m : result A) : Run A := λ log, (m, log).

Definition solve (solver : Solver) (prob : LpProblem) (time_limit : option Z)
    : Run Solution :=
  λ log, let c := mkSolverCall prob time_limit in
         (Ok (solver log c), log ++ [c]).

(** [for x in l: s = body(x, s)]. *)
Fixpoint for_in {A S} (l : list A) (body : A → S → Run S) (s : S) : Run S :=
  match l with
  | [] => ret s
  | x :: l' => bind (body x s) (for_in l' body)
  end.

(** The rows that the rounds of a loop add one after the other, when round
    [x] adds the rows [rows_of x log] in the history [log] and makes the
    calls [calls_of x]. *)
Fixpoint rounds {A R} (rows_of : A → Log → list R)
    (calls_of : A → list SolverCall) (l : list A) (log : Log) : list R :=
  match l with
  | [] => []
  | x :: l' => rows_of x log ++ rounds rows_of calls_of l' (log ++ calls_of x)
  end.

(** *** What a valuation means for a problem *)

Definition val (v : Var → option Q) (x : Var) : Q := default 0%Q (v x).

Definition eval (e : LinExpr) (v : Var → option Q) : Q :=
  Qsum (map (λ t, (fst t * val v (snd t))%Q) e).

Definition satisfies (v : Var → option Q) (c : Constraint) : Prop :=
  match c_sense c with
  | GE => (c_rhs c <= eval (c_lhs c) v)%Q
  | LE => (eval (c_lhs c) v <= c_rhs c)%Q
  end.

Definition integral (q : Q) : Prop := ∃ z : Z, (q == inject_Z z)%Q.

Record feasible (p : LpProblem) (v : Var → option Q) : Prop := mkFeasible {
  feas_x_low : ∀ k, k ∈ x_keys p → (0 <= val v (X k.1 k.2))%Q;
  feas_x_int : x_cat p = LpInteger →
               ∀ k, k ∈ x_keys p → integral (val v (X k.1 k.2));
  feas_u_low : ∀ k, k ∈ u_keys p → (0 <= val v (U k.1 k.2))%Q;
  feas_cons : Forall (satisfies v) (constraints p)
}.

(** An exact solve: the valuation is feasible and no feasible valuation
    has a smaller objective. *)
Definition optimal (p : LpProblem) (v : Var → option Q) : Prop :=
  feasible p v ∧ ∀ v', feasible p v' → (eval (objective p) v <= eval (objective p) v')%Q.





End Pulp.

(** ** sensitivity.py *)

Module Sensitivity.
Import Pandas Pulp.

Notation "'let*' x ':=' m 'in' k" := (rbind m (λ x, k))
  (at level 10, x name, m at level 100, k at level 200, only parsing).
Notation "'let!' x ':=' m 'in' k" := (bind m (λ x, k))
  (at level 10, x name, m at level 100, k at level 200, only parsing).

(** *** Data: [load_demand] *)

(** A cell of the frame that [pd.read_csv] returns. A column that
    [read_csv] could not parse as numbers holds text ([CStr]); an empty
    field is [CNaN]. *)
Inductive cell : Type :=
| CInt (z : Z)
| CFloat (q : Q)
| CBool (b : bool)
| CNaN
| CStr (s : string).

(** The frame itself, row by row; [header] is [df.columns]. A row shorter
    than the header reads as [CNaN] beyond its end. *)
Record Table : Type := mkTable {
  header : list string;
  body : list (list cell)
}.

(** [str.lower] and [str.strip] on ASCII text. *)
Definition lower_ascii (c : ascii) : ascii :=
  let n := N_of_ascii c in
  if ((65 <=? n) && (n <=? 90))%N then ascii_of_N (n + 32) else c.

Fixpoint lower (s : string) : string :=
  match s with
  | EmptyString => EmptyString
  | String c s' => String (lower_ascii c) (lower s')
  end.

Definition is_space (c : ascii) : bool :=
  let n := N_of_ascii c in
  (((9 <=? n) && (n <=? 13)) || ((28 <=? n) && (n <=? 32)))%N.

Fixpoint lstrip (s : string) : string :=
  match s with
  | EmptyString => EmptyString
  | String c s' => if is_space c then lstrip s' else s
  end.

Fixpoint rstrip (s : string) : string :=
  match s with
  | EmptyString => EmptyString
  | String c s' =>
      match rstrip s' with
      | EmptyString => if is_space c then EmptyString else String c EmptyString
      | t => String c t
      end
  end.

Definition strip (s : string) : string := rstrip (lstrip s).

(** [c.lower().strip()] *)
Definition normalize (c : string) : string := strip (lower c).

Definition need : list string :=
  ["pickup_community_area"; "hour"; "demand"]%string.

(** Lines 12-17: the keys of [cols] are the normalised names. *)
Definition check_columns (df_columns : list string) : result unit :=
  let cols := map normalize df_columns in
  match List.find (λ n, negb (bool_decide (n ∈ cols))
                        && negb (bool_decide (n ∈ df_columns))) need with
  | Some n => Raise (ValueError_missing n df_columns)
  | None => Ok tt
  end.

(** The positions of the columns labelled [n]. *)
Fixpoint positions_from (i : nat) (n : string) (labels : list string) : list nat :=
  match labels with
  | [] => []
  | c :: labels' =>
      if bool_decide (c = n) then i :: positions_from (S i) n labels'
      else positions_from (S i) n labels'
  end.

Definition positions (n : string) (labels : list string) : list nat :=
  positions_from 0 n labels.

(** [df[[...]]]: every column carrying one of the labels, label by label;
    a label that no column carries raises [KeyError]. *)
Definition select_positions (labels : list string) (wanted : list string)
    : result (list nat) :=
  let* ps := rmap (λ n, match positions n labels with
                        | [] => Raise (KeyError_label n)
                        | p => Ok p
                        end) wanted in
  Ok (concat ps).

Definition cell_at (row : list cell) (i : nat) : cell := nth i row CNaN.

(** [int(q)] of a float: truncation towards zero. *)
Definition Qtrunc (q : Q) : Z := Z.quot (Qnum q) (Z.pos (Qden q)).

(** Python's [int(s)] and [float(s)] on text: [None] where they raise. They
    belong to the language, not to the repository, and stay parameters. *)
Record Text : Type := mkText {
  int_of_text : string → option Z;
  float_of_text : string → option Q
}.

(** [astype(int)] and [astype(float)] on one cell: a missing value has no
    integer, and text converts as [int] and [float] read it. *)
Definition to_int (py : Text) (c : cell) : option cell :=
  match c with
  | CInt z => Some (CInt z)
  | CFloat q => Some (CInt (Qtrunc q))
  | CBool b => Some (CInt (if b then 1 else 0))
  | CNaN => None
  | CStr s => match int_of_text py s with Some z => Some (CInt z) | None => None end
  end.

Definition to_float (py : Text) (c : cell) : option cell :=
  match c with
  | CInt z => Some (CFloat (inject_Z z))
  | CFloat q => Some (CFloat q)
  | CBool b => Some (CFloat (if b then 1 else 0))
  | CNaN => Some CNaN
  | CStr s => match float_of_text py s with Some q => Some (CFloat q) | None => None end
  end.

(** One row under [df[n] = df[n].astype(T)]: the cells in the columns
    labelled [n] are converted, the others stay. *)
Fixpoint astype_row (conv : cell → option cell) (n : string)
    (labels : list string) (row : list cell) : option (list cell) :=
  match labels with
  | [] => Some []
  | c :: labels' =>
      let x := cell_at row 0 in
      match (if bool_decide (c = n) then conv x else Some x) with
      | None => None
      | Some y =>
          match astype_row conv n labels' (tail row) with
          | None => None
          | Some ys => Some (y :: ys)
          end
      end
  end.

(** The whole frame under [df[n] = df[n].astype(T)]: the first cell that
    does not convert raises. *)
Definition astype (conv : cell → option cell) (n : string)
    (labels : list string) (rows : list (list cell)) : result (list (list cell)) :=
  rmap (λ row, match astype_row conv n labels row with
               | Some row' => Ok row'
               | None => Raise (ValueError_cast n)
               end) rows.

(** The integer in a cell of a column that was converted to [int]. *)
Definition cell_int (c : cell) : Z :=
  match c with CInt z => z | _ => 0 end.

(** The only position of a label used as a sort key. *)
Definition key_position (n : string) (labels : list string) : result nat :=
  match positions n labels with
  | [] => Raise (KeyError_label n)
  | [p] => Ok p
  | _ :: _ :: _ => Raise (ValueError_not_unique n)
  end.

(** The order of [sort_values(["hour", "pickup_community_area"])]. *)
Definition hour_area_leb (ph pa : nat) (r1 r2 : list cell) : bool :=
  let h1 := cell_int (cell_at r1 ph) in
  let h2 := cell_int (cell_at r2 ph) in
  let a1 := cell_int (cell_at r1 pa) in
  let a2 := cell_int (cell_at r2 pa) in
  (h1 <? h2) || ((h1 =? h2) && (a1 <=? a2)).

(** Lines 12-23, on the frame [df] that [pd.read_csv(path)] returned. *)
Definition load_demand (py : Text) (df : Table) : result Table :=
  let* _ := check_columns (header df) in
  let labels := map normalize (header df) in
  let* ps := select_positions labels need in
  let labels := map (λ p, nth p labels EmptyString) ps in
  let rows := map (λ row, map (cell_at row) ps) (body df) in
  let* rows := astype (to_int py) "pickup_community_area" labels rows in
  let* rows := astype (to_int py) "hour" labels rows in
  let* rows := astype (to_float py) "demand" labels rows in
  let* ph := key_position "hour" labels in
  let* pa := key_position "pickup_community_area" labels in
  Ok (mkTable labels (sort_stable (hour_area_leb ph pa) rows)).

(** *** MILP solver: [solve_allocation] *)

(** A row of [demand_df]: [(pickup_community_area, hour, demand)]. *)
Definition DemandRow : Type := Z * Z * Q.

Definition area_of (row : DemandRow) : Z := row.1.1.
Definition hour_of (row : DemandRow) : Z := row.1.2.
Definition demand_of (row : DemandRow) : Q := row.2.

(** Line 41: [A]. *)
Definition areas (demand_df : list DemandRow) : list Z :=
  sorted (unique (map area_of demand_df)).

(** Line 42: [H]. *)
Definition hours (demand_df : list DemandRow) : list Z :=
  sorted (unique (map hour_of demand_df)).

(** Lines 43-44: [d]; a later row overwrites an earlier one for the same
    pair. *)
Definition demand_dict (demand_df : list DemandRow) : gmap (Z * Z) Q :=
  foldl (λ d row, <[(area_of row, hour_of row) := demand_of row]> d) ∅ demand_df.

(** Lines 45-49: the capacity schedule that the model uses. *)
Definition fill_caps (H : list Z) (F : Z) (hour_caps : option (gmap Z Z))
    : gmap Z Z :=
  match hour_caps with
  | None => foldl (λ m h, <[h := F]> m) ∅ H
  | Some caps => foldl (λ m h, <[h := get caps h F]> m) ∅ H
  end.

(** Line 65: [r * x[(a, h)] + u[(a, h)] >= d[(a, h)]]. *)
Definition cover_constraint (r : Q) (d : gmap (Z * Z) Q) (k : Z * Z)
    : result Constraint :=
  match d !! k with
  | Some dv =>
      Ok (mkConstraint (cover k.1 k.2) [(r, X k.1 k.2); (1%Q, U k.1 k.2)] GE dv)
  | None => Raise (KeyError_pair k.1 k.2)
  end.

(** Line 69: [lpSum(x[(a, h)] for a in A) <= hour_caps[h]]. *)
Definition fleetcap_constraint (A : list Z) (caps : gmap Z Z) (h : Z)
    : result Constraint :=
  match caps !! h with
  | Some c =>
      Ok (mkConstraint (fleetcap h) (map (λ a, (1%Q, X a h)) A) LE (inject_Z c))
  | None => Raise (KeyError_hour h)
  end.

(** Lines 52-69: the problem, or the first [KeyError] met while the
    constraints are written. *)
Definition build_model (A H : list Z) (d : gmap (Z * Z) Q) (caps : gmap Z Z)
    (r : Q) (int_vars : bool) : result LpProblem :=
  let keys := list_prod A H in
  let* cov := rmap (cover_constraint r d) keys in
  let* cap := rmap (fleetcap_constraint A caps) H in
  Ok (mkLpProblem "taxi_allocation_min_unmet" dicts_names
        (if int_vars then LpInteger else LpContinuous)
        keys keys (map (λ k, (1%Q, U k.1 k.2)) keys) (cov ++ cap)).

(** A row of the [allocations] frame. *)
Record AllocRow : Type := mkAllocRow {
  pickup_community_area : Z;
  hour : Z;
  demand : Q;
  x_taxis : Q;
  served : Q;
  unmet : Q
}.

(** Lines 82-86. *)
Definition extract_row (r : Q) (d : gmap (Z * Z) Q) (sol : Solution)
    (k : Z * Z) : result AllocRow :=
  let xv := match value sol (X k.1 k.2) with Some q => q | None => 0%Q end in
  let uv := match value sol (U k.1 k.2) with Some q => q | None => 0%Q end in
  match d !! k with
  | Some dv => Ok (mkAllocRow k.1 k.2 dv xv (Qmin dv (r * xv)) uv)
  | None => Raise (KeyError_pair k.1 k.2)
  end.

Record Summary : Type := mkSummary {
  s_status : LpStatus;
  s_runtime_sec : Q;
  s_objective_unmet : Q;
  s_demand_total : Q;
  s_served_total : Q;
  s_served_pct : Q;
  s_F : Z;
  s_r : Q;
  s_int_vars : bool
}.

Definition summary_keys : list string :=
  ["status"; "runtime_sec"; "objective_unmet"; "demand_total"; "served_total";
   "served_pct"; "F"; "r"; "int_vars"]%string.

Record Allocation : Type := mkAllocation {
  allocations : list AllocRow;
  summary : Summary
}.

(** Lines 89-105. *)
Definition summarize (sol : Solution) (rows : list AllocRow) (F : Z) (r : Q)
    (int_vars : bool) : Summary :=
  let total_demand := Qsum (map demand rows) in
  let total_unmet := Qsum (map unmet rows) in
  let total_served := Qsum (map served rows) in
  let served_pct :=
    if Qeq_bool total_demand 0 then 0%Q else (total_served / total_demand)%Q in
  mkSummary (status sol) (runtime sol) total_unmet total_demand total_served
    served_pct F r int_vars.

Definition solve_allocation (solver : Solver) (demand_df : list DemandRow)
    (F : Z) (r : Q) (int_vars : bool) (hour_caps : option (gmap Z Z))
    (time_limit : option Z) : Run Allocation :=
  let A := areas demand_df in
  let H := hours demand_df in
  let d := demand_dict demand_df in
  let hour_caps := fill_caps H F hour_caps in
  let! prob := lift (build_model A H d hour_caps r int_vars) in
  let! sol := solve solver prob time_limit in
  let! sol_rows := lift (rmap (extract_row r d sol) (list_prod A H)) in
  ret (mkAllocation sol_rows (summarize sol sol_rows F r int_vars)).

(** *** Sensitivity grid: [run_sensitivity] *)

(** The order of [sort_values(["r", "F"])]. *)
Definition r_F_leb (s1 s2 : Summary) : bool :=
  negb (Qle_bool (s_r s2) (s_r s1))
  || (Qeq_bool (s_r s1) (s_r s2) && (s_F s1 <=? s_F s2)).

Definition run_sensitivity (solver : Solver) (demand_df : list DemandRow)
    (F_grid : list Z) (r_grid : list Q) (int_vars : bool)
    (time_limit : option Z) : Run (DataFrame Summary) :=
  let! rows :=
    for_in r_grid (λ r rows,
      for_in F_grid (λ F rows,
        let! res := solve_allocation solver demand_df F r int_vars None time_limit in
        ret (rows ++ [summary res])) rows) [] in
  lift (sort_values ["r"; "F"]%string r_F_leb (from_dicts summary_keys rows)).

(** *** Marginal benefit by hour: [marginal_value_per_hour] *)

Record MarginalRow : Type := mkMarginalRow {
  mv_hour : Z;
  mv_deltaF_at_hour : Z;
  mv_unmet_reduction : Q
}.

Definition marginal_keys : list string :=
  ["hour"; "deltaF_at_hour"; "unmet_reduction"]%string.

Definition hour_leb (m1 m2 : MarginalRow) : bool := mv_hour m1 <=? mv_hour m2.

(** Lines 138-139: [caps]. *)
Definition bumped_caps (hours : list Z) (F delta h : Z) : gmap Z Z :=
  <[h := F + delta]> (foldl (λ m hh, <[hh := F]> m) ∅ hours).

Definition marginal_value_per_hour (solver : Solver) (demand_df : list DemandRow)
    (F : Z) (r : Q) (delta : Z) (int_vars : bool) (time_limit : option Z)
    : Run (DataFrame MarginalRow) :=
  let! base := solve_allocation solver demand_df F r int_vars None time_limit in
  let base_unmet := s_objective_unmet (summary base) in
  let hours := hours demand_df in
  let! out :=
    for_in hours (λ h out,
      let caps := bumped_caps hours F delta h in
      let! res_h := solve_allocation solver demand_df F r int_vars (Some caps) time_limit in
      let du := (base_unmet - s_objective_unmet (summary res_h))%Q in
      ret (out ++ [mkMarginalRow h delta du])) [] in
  lift (sort_values ["hour"]%string hour_leb (from_dicts marginal_keys out)).

(** *** Vocabulary of the statements *)

(** The table has a row for every pair of one of its zones and one of its
    hours. *)
Definition covers (demand_df : list DemandRow) : bool :=
  forallb (λ k, bool_decide (is_Some (demand_dict demand_df !! k)))
    (list_prod (areas demand_df) (hours demand_df)).

(** The problem that [solve_allocation] writes for its arguments. *)
Definition model_of (demand_df : list DemandRow) (F : Z) (r : Q)
    (int_vars : bool) (hour_caps : option (gmap Z Z)) : result LpProblem :=
  build_model (areas demand_df) (hours demand_df) (demand_dict demand_df)
    (fill_caps (hours demand_df) F hour_caps) r int_vars.

(** The row that [extract_row] writes when the pair has a demand. *)
Definition extracted (r : Q) (d : gmap (Z * Z) Q) (sol : Solution) (k : Z * Z)
    : AllocRow :=
  let xv := default 0%Q (value sol (X k.1 k.2)) in
  let uv := default 0%Q (value sol (U k.1 k.2)) in
  let dv := get d k 0%Q in
  mkAllocRow k.1 k.2 dv xv (Qmin dv (r * xv)) uv.

(** The capacity that the model uses at hour [h]. *)
Definition capacity (F : Z) (hour_caps : option (gmap Z Z)) (h : Z) : Z :=
  match hour_caps with
  | None => F
  | Some caps => get caps h F
  end.

(** The problem as it is written when every pair has a demand. *)
Definition written (demand_df : list DemandRow) (F : Z) (r : Q)
    (int_vars : bool) (hour_caps : option (gmap Z Z)) : LpProblem :=
  let A := areas demand_df in
  let H := hours demand_df in
  let d := demand_dict demand_df in
  let keys := list_prod A H in
  mkLpProblem "taxi_allocation_min_unmet" dicts_names
    (if int_vars then LpInteger else LpContinuous) keys keys
    (map (λ k, (1%Q, U k.1 k.2)) keys)
    (map (λ k, mkConstraint (cover k.1 k.2) [(r, X k.1 k.2); (1%Q, U k.1 k.2)]
                 GE (get d k 0%Q)) keys
     ++ map (λ h, mkConstraint (fleetcap h) (map (λ a, (1%Q, X a h)) A) LE
                    (inject_Z (capacity F hour_caps h))) H).

(** The call that submits it. *)
Definition submitted (demand_df : list DemandRow) (F : Z) (r : Q)
    (int_vars : bool) (hour_caps : option (gmap Z Z)) (time_limit : option Z)
    : SolverCall :=
  mkSolverCall (written demand_df F r int_vars hour_caps) time_limit.

(** What [solve_allocation] returns for the answer [sol]. *)
Definition outcome (demand_df : list DemandRow) (F : Z) (r : Q)
    (int_vars : bool) (sol : Solution) : Allocation :=
  let rows := map (extracted r (demand_dict demand_df) sol)
                (list_prod (areas demand_df) (hours demand_df)) in
  mkAllocation rows (summarize sol rows F r int_vars).

(** The call of the analyser for hour [h]. *)
Definition bumped_call (demand_df : list DemandRow) (F : Z) (r : Q)
    (delta : Z) (int_vars : bool) (time_limit : option Z) (h : Z) : SolverCall :=
  submitted demand_df F r int_vars
    (Some (bumped_caps (hours demand_df) F delta h)) time_limit.

(** The row of the analyser for hour [h], solved in the history [log]. *)
Definition marginal_row (solver : Solver) (demand_df : list DemandRow) (F : Z)
    (r : Q) (delta : Z) (int_vars : bool) (time_limit : option Z)
    (base_unmet : Q) (h : Z) (log : Log) : MarginalRow :=
  let sol := solver log (bumped_call demand_df F r delta int_vars time_limit h) in
  mkMarginalRow h delta
    (base_unmet - s_objective_unmet (summary (outcome demand_df F r int_vars sol)))%Q.

(** The first of the required names that no column carries. *)
Definition first_missing (df_columns : list string) : option string :=
  List.find (λ n, negb (bool_decide (n ∈ map normalize df_columns))) need.

(** Text made of whitespace only. *)
Fixpoint blank (s : string) : bool :=
  match s with
  | EmptyString => true
  | String c s' => is_space c && blank s'
  end.

(** Text that does not start with whitespace. *)
Definition starts_with_text (s : string) : Prop :=
  match s with
  | EmptyString => True
  | String c _ => is_space c = false
  end.

(** A row of the loaded table, read from the columns at [pa], [ph] and [pd],
    when its three cells convert. *)
Definition typed (py : Text) (pa ph pd : nat) (row : list cell) : list cell :=
  [default CNaN (to_int py (cell_at row pa));
   default CNaN (to_int py (cell_at row ph));
   default CNaN (to_float py (cell_at row pd))].

Definition converts (py : Text) (pa ph pd : nat) (row : list cell) : Prop :=
  is_Some (to_int py (cell_at row pa)) ∧ is_Some (to_int py (cell_at row ph))
  ∧ is_Some (to_float py (cell_at row pd)).

End Sensitivity.

(** ** optimize.py *)

Module Optimize.
Import Pulp.

Notation "'let!' x ':=' m 'in' k" := (bind m (λ x, k))
  (at level 10, x name, m at level 100, k at level 200, only parsing).

Definition FLEET_SIZE : Z := 3528.
Definition TRIPS_PER_TAXI_PER_HOUR : Q := 2.

(** Lines 14-15. *)
Definition areas (demand_df : list (Z * Z * Q)) : list Z :=
  sorted (unique (map (λ row, row.1.1) demand_df)).

Definition hours (demand_df : list (Z * Z * Q)) : list Z :=
  sorted (unique (map (λ row, row.1.2) demand_df)).

(** Lines 18-19. *)
Definition dem (demand_df : list (Z * Z * Q)) : gmap (Z * Z) Q :=
  foldl (λ d row, <[(row.1.1, row.1.2) := row.2]> d) ∅ demand_df.

(** Line 35: the right-hand side is [dem.get((a, h), 0.0)]. *)
Definition demand_cover (r : Q) (d : gmap (Z * Z) Q) (k : Z * Z) : Constraint :=
  mkConstraint (n_demand_cover k.1 k.2) [(r, X k.1 k.2); (1%Q, U k.1 k.2)] GE
    (get d k 0%Q).

(** Line 39. *)
Definition fleet_cap_hour (A : list Z) (h : Z) : Constraint :=
  mkConstraint (n_fleet_cap_hour h) (map (λ a, (1%Q, X a h)) A) LE
    (inject_Z FLEET_SIZE).

(** Lines 22-39: the problem [m]. *)
Definition model (demand_df : list (Z * Z * Q)) : LpProblem :=
  let A := areas demand_df in
  let H := hours demand_df in
  let keys := list_prod A H in
  mkLpProblem "Taxi_Fleet_Allocation_MinUnmet" underscore_names
    LpInteger keys keys (map (λ k, (1%Q, U k.1 k.2)) keys)
    (map (demand_cover TRIPS_PER_TAXI_PER_HOUR (dem demand_df)) keys
     ++ map (fleet_cap_hour A) H).

(** [round] of a float: to the nearest integer, a tie to the even one. *)
Definition py_round (q : Q) : Z :=
  let n := Qfloor q in
  match (q - inject_Z n ?= 1 # 2)%Q with
  | Lt => n
  | Gt => n + 1
  | Eq => if Z.even n then n else n + 1
  end.

(** [v or 0] for [v] a float or [None]. *)
Definition or_zero (v : option Q) : Q :=
  match v with Some q => q | None => 0%Q end.

Record SolRow : Type := mkSolRow {
  sol_area : Z;
  sol_hour : Z;
  sol_demand : Q;
  assigned_taxis : Z;
  served_trips : Q;
  unmet_trips : Q
}.

(** Lines 52-63: one row of the solution table. *)
Definition row (r : Q) (d : gmap (Z * Z) Q) (sol : Solution) (k : Z * Z) : SolRow :=
  let taxis := py_round (or_zero (value sol (X k.1 k.2))) in
  let unmet := Qmax 0 (or_zero (value sol (U k.1 k.2))) in
  let demand := get d k 0%Q in
  let served := Qmin demand (r * inject_Z taxis) in
  mkSolRow k.1 k.2 demand taxis served unmet.

(** Lines 49-63: [rows]. *)
Definition rows (demand_df : list (Z * Z * Q)) (sol : Solution) : list SolRow :=
  map (row TRIPS_PER_TAXI_PER_HOUR (dem demand_df) sol)
    (list_prod (areas demand_df) (hours demand_df)).

(** Line 45: [value(m.objective)] is [None] as soon as one variable of the
    objective has no value. *)
Definition objective_value (m : LpProblem) (sol : Solution) : option Q :=
  if forallb (λ t, bool_decide (is_Some (value sol t.2))) (objective m)
  then Some (eval (objective m) (value sol))
  else None.

(** Lines 22-63: build, solve, print the total (where [round(None, 2)]
    raises), tabulate. *)
Definition main (solver : Solver) (demand_df : list (Z * Z * Q)) : Run (list SolRow) :=
  let m := model demand_df in
  let! sol := solve solver m None in
  let! total_unmet :=
    lift (match objective_value m sol with
          | Some t => Ok t
          | None => Raise TypeError_round
          end) in
  ret (rows demand_df sol).

End Optimize.

(** ** data_clean_up.py *)

Module CleanUp.

(** A parsed timestamp: wall-clock nanoseconds since 1970-01-01T00:00, the
    way pandas stores a [datetime64] value. *)
Definition Timestamp : Type := Z.

Definition NS_PER_HOUR : Z := 3600000000000.
Definition NS_PER_DAY : Z := 24 * NS_PER_HOUR.

(** [.dt.date], as the number of the day, and [.dt.hour]. *)
Definition dt_date (t : Timestamp) : Z := t / NS_PER_DAY.
Definition dt_hour (t : Timestamp) : Z := (t `mod` NS_PER_DAY) / NS_PER_HOUR.

(** A row of the frame after lines 53-58: what [pd.to_datetime] and
    [pd.to_numeric] made of the two cells, [None] for [NaT] and [NaN]
    (with [errors="coerce"] a cell that does not parse becomes one). *)
Definition RawTrip : Type := option Timestamp * option Q.

(** A row of the frame after lines 60-65. *)
Record Trip : Type := mkTrip {
  trip_date : Z;
  trip_area : Z;
  trip_hour : Z
}.

(** Lines 60-65: [dropna], [astype(int)], date and hour. *)
Definition clean (raw : list RawTrip) : list Trip :=
  omap (λ row, match row with
               | (Some t, Some a) =>
                   Some (mkTrip (dt_date t) (Sensitivity.Qtrunc a) (dt_hour t))
               | _ => None
               end) raw.

(** The orders in which [groupby] lists its groups. *)
Definition leb2 (k1 k2 : Z * Z) : bool :=
  (k1.1 <? k2.1) || ((k1.1 =? k2.1) && (k1.2 <=? k2.2)).

Definition leb3 (k1 k2 : Z * Z * Z) : bool :=
  (k1.1.1 <? k2.1.1) || ((k1.1.1 =? k2.1.1) && leb2 (k1.1.2, k1.2) (k2.1.2, k2.2)).

Section GroupBy.
Context {K : Type} `{EqDecision K} (leb : K → K → bool).

(** The groups of [groupby(keys)]: the distinct keys, in order. *)
Definition groups (keys : list K) : list K :=
  sort_stable leb (remove_dups keys).

(** [groupby(keys, as_index=False).size()]: for each group the number of
    rows in it. *)
Definition group_size (keys : list K) : list (K * Z) :=
  map (λ k, (k, Z.of_nat (length (filter (λ k', k' = k) keys)))) (groups keys).

(** [groupby(keys, as_index=False)[col].mean()]: for each group the mean of
    the column over the rows in it. *)
Definition group_mean (rows : list (K * Q)) : list (K * Q) :=
  map (λ k, let vs := map snd (filter (λ r, r.1 = k) rows) in
            (k, (Qsum vs / inject_Z (Z.of_nat (length vs)))%Q))
      (groups (map fst rows)).

(** [left.merge(right, on=keys, how="left")]: each row of [left] once for
    each row of [right] with its key, and once with [NaN] if there is
    none. *)
Definition merge_left (left : list K) (right : list (K * Q)) : list (K * option Q) :=
  flat_map (λ k, match filter (λ r, r.1 = k) right with
                 | [] => [(k, None)]
                 | ms => map (λ r, (k, Some r.2)) ms
                 end) left.
End GroupBy.

(** The key of a trip in the [groupby] of line 69. *)
Definition key3 (t : Trip) : Z * Z * Z := (trip_date t, trip_area t, trip_hour t).

(** Lines 68-72: [daily]. *)
Definition daily (df : list Trip) : list (Z * Z * Z * Z) :=
  group_size leb3 (map key3 df).

(** Lines 75-79: [demand], before the merge. *)
Definition mean_over_dates (daily : list (Z * Z * Z * Z)) : list (Z * Z * Q) :=
  group_mean leb2 (map (λ row, (row.1.1.2, row.1.2, inject_Z row.2)) daily).

(** Line 83: [np.arange(24)]. *)
Definition hours_of_day : list Z := map Z.of_nat (seq 0 24).

(** Lines 82-88: [full]. *)
Definition full (df : list Trip) : list (Z * Z) :=
  list_prod (sorted (unique (map trip_area df))) hours_of_day.

(** [.round(3)]: to the nearest thousandth, a tie to the even one. *)
Definition round3 (q : Q) : Q :=
  (inject_Z (Optimize.py_round (q * 1000)) / 1000)%Q.

(** Lines 90-91, [fillna(0)] being [default 0]. *)
Definition filled (merged : list (Z * Z * option Q)) : list Sensitivity.DemandRow :=
  map (λ row, (row.1.1, row.1.2, round3 (default 0%Q row.2))) merged.

(** Lines 60-91: the table that line 94 writes. *)
Definition typical_day (raw : list RawTrip) : list Sensitivity.DemandRow :=
  let df := clean raw in
  filled (merge_left (full df) (mean_over_dates (daily df))).

(** *** Vocabulary of the statements *)



End CleanUp.

(** ** visualize.py *)

Module Visualize.
Import Optimize.

(** [Series.max()] of an integer column; [None] is the [NaN] of an empty
    column. *)
Definition column_max (l : list Z) : option Z :=
  match l with
  | [] => None
  | x :: l' => Some (foldl Z.max x l')
  end.

(** Line 14: [max(1.0, m)] keeps [1.0] unless [m] is greater, also when [m]
    is [NaN]. *)
Definition max_assigned (df : list SolRow) : Q :=
  match column_max (map assigned_taxis df) with
  | Some m => if (1 <? m)%Z then inject_Z m else 1%Q
  | None => 1%Q
  end.

Section Features.
(** [G]: a feature of the map. A feature is a dict with the key
    ["properties"], so it is never falsy. *)
Context {G : Type}.

(** What lines 25-45 append: the geometry comes from [feat], the time from
    [hour], the fill opacity is [opacity]; the popup shows the row. *)
Record Feature : Type := mkFeature {
  feat : G;
  time_hour : Z;
  fill_opacity : Q;
  popup : SolRow
}.

(** Lines 20-45: the body of the inner loop; [None] is [continue]. *)
Definition feature_of (area_features : gmap Z G) (m : Q) (hour : Z) (row : SolRow)
    : option Feature :=
  match area_features !! sol_area row with
  | None => None
  | Some f =>
      Some (mkFeature f hour (Qmin (9 # 10) (inject_Z (assigned_taxis row) / m)) row)
  end.

(** Lines 16-45: [features]. *)
Definition features (area_features : gmap Z G) (df : list SolRow) : list Feature :=
  let m := max_assigned df in
  flat_map (λ hour,
              omap (feature_of area_features m hour)
                (filter (λ row, sol_hour row = hour) df))
    (sorted (unique (map sol_hour df))).
End Features.

End Visualize.

(** ** Sample inputs *)

Module Examples.
Import Pulp Sensitivity.

(** Two zones, two hours, every pair present. *)
Definition table_2x2 : list DemandRow :=
  [(1, 0, 10%Q); (1, 1, 5%Q); (2, 0, 8%Q); (2, 1, 12%Q)].

(** Two zones, two hours, but no row for (1, 1) nor for (2, 0). *)
Definition table_gap : list DemandRow := [(1, 0, 10%Q); (2, 1, 5%Q)].

(** A solver that leaves every variable without a value. *)
Definition silent : Solver :=
  λ _ _, mkSolution NotSolved 0 (λ _, None).

(** A solver that gives every [x] the value [xv] and every [u] the value
    [uv]. *)
Definition constant (xv uv : Q) : Solver :=
  λ _ _, mkSolution Optimal 1
           (λ v, match v with X _ _ => Some xv | U _ _ => Some uv end).

(** A frame as [read_csv] returns it, with its names in mixed case and
    padded, and a column that is not needed. *)
Definition raw_ok : Table :=
  mkTable [" Hour"; "PICKUP_community_area "; "demand"; "note"]%string
    [[CInt 3; CInt 1; CFloat 2; CNaN]; [CInt 2; CFloat (7 # 2); CInt 2; CStr "x"]].

(** The three names are there, one hour is missing. *)
Definition raw_missing_hour : Table :=
  mkTable ["pickup_community_area"; "hour"; "demand"]%string
    [[CInt 1; CNaN; CFloat 2]].

(** A reading of text in which no text is a number. *)
Definition no_number : Text := mkText (λ _, None) (λ _, None).

(** Only the demand is there. *)
Definition raw_demand_only : Table := mkTable ["demand"]%string [[CFloat 2]].

(** One zone, one hour, five trips. *)
Definition one_cell : list DemandRow := [(1, 0, 5%Q)].

(** A solver for problems with one coverage row and one capacity row: it
    assigns the whole capacity and leaves unmet what the capacity does not
    cover. *)
Definition fill_to_capacity : Solver :=
  λ _ c,
    match constraints (call_problem c) with
    | [cov; cap] =>
        let r := match c_lhs cov with (r, _) :: _ => r | [] => 0%Q end in
        let xv := c_rhs cap in
        let uv := Qmax 0 (c_rhs cov - r * xv) in
        mkSolution Optimal 0
          (λ v, match v with X _ _ => Some xv | U _ _ => Some uv end)
    | _ => mkSolution NotSolved 0 (λ _, None)
    end.





(** Trips as line 58 leaves them: zone 8 at 00:00 and 00:30 of day 0 and at
    00:01 of day 1, zone 3.5 at 05:00 of day 0, a trip without a time and a
    trip without a zone. *)
Definition raw_trips : list CleanUp.RawTrip :=
  [(Some 0, Some 8%Q);
   (Some 1800000000000, Some 8%Q);
   (Some 86460000000000, Some 8%Q);
   (Some 18000000000000, Some (7 # 2)%Q);
   (None, Some 8%Q);
   (Some 0, None)].

End Examples.

(** * Properties *)

Import Pandas Pulp.

(** ** Sorting and de-duplication *)

Section SortFacts.
Context {A : Type} (leb : A → A → bool).

Lemma insert_sorted_Permutation (x : A) (l : list A) :
  insert_sorted leb x l ≡ₚ x :: l.
Proof.
  induction l as [|y l IH]; simpl; [done|].
  destruct (leb x y); [done|].
  rewrite IH. apply Permutation_swap.
Qed.

Lemma sort_stable_Permutation (l : list A) : sort_stable leb l ≡ₚ l.
Proof.
  induction l as [|x l IH]; simpl; [done|].
  rewrite insert_sorted_Permutation. by rewrite IH.
Qed.

Lemma sort_stable_length (l : list A) : length (sort_stable leb l) = length l.
Proof. by rewrite sort_stable_Permutation. Qed.

Hypothesis leb_total : ∀ x y, leb x y = true ∨ leb y x = true.

Lemma insert_sorted_Sorted (x : A) (l : list A) :
  Sorted (before leb) l → Sorted (before leb) (insert_sorted leb x l).
Proof using leb_total.
  induction 1 as [|y l Hl IH Hhd]; simpl.
  - by repeat constructor.
  - destruct (leb x y) eqn:Hxy.
    + constructor; [by constructor|]. by constructor.
    + constructor; [done|].
      destruct Hhd as [|z l' Hyz]; simpl.
      * constructor. destruct (leb_total x y); [congruence|done].
      * destruct (leb x z); constructor; [|done].
        destruct (leb_total x y); [congruence|done].
Qed.

Lemma sort_stable_Sorted (l : list A) : Sorted (before leb) (sort_stable leb l).
Proof using leb_total.
  induction l as [|x l IH]; simpl; [constructor|].
  by apply insert_sorted_Sorted.
Qed.

(** A list that is already in order is left as it is. *)
Lemma sort_stable_id (l : list A) : Sorted (before leb) l → sort_stable leb l = l.
Proof.
  induction 1 as [|x l Hl IH Hhd]; simpl; [done|].
  rewrite IH. destruct Hhd as [|y l' Hxy]; simpl; [done|].
  unfold before in Hxy. by rewrite Hxy.
Qed.

End SortFacts.

Lemma Sorted_weaken {A} (R1 R2 : A → A → Prop) (l : list A) :
  (∀ x y, R1 x y → R2 x y) → Sorted R1 l → Sorted R2 l.
Proof.
  intros HR. induction 1 as [|x l Hl IH Hhd]; constructor; [done|].
  destruct Hhd; constructor; auto.
Qed.

Lemma sorted_Permutation (l : list Z) : sorted l ≡ₚ l.
Proof. apply sort_stable_Permutation. Qed.

Lemma sorted_Sorted (l : list Z) : Sorted Z.le (sorted l).
Proof.
  eapply Sorted_weaken; [|apply (sort_stable_Sorted Z.leb)].
  - intros x y H. by apply Z.leb_le.
  - intros x y. rewrite !Z.leb_le. lia.
Qed.

Lemma elem_of_sorted (x : Z) (l : list Z) : x ∈ sorted l ↔ x ∈ l.
Proof. by rewrite sorted_Permutation. Qed.

Lemma elem_of_unique (x : Z) (l : list Z) : x ∈ unique l ↔ x ∈ l.
Proof.
  induction l as [|y l IH]; simpl; [done|].
  rewrite !elem_of_cons, list_elem_of_filter, IH.
  destruct (decide (x = y)); tauto.
Qed.

Lemma NoDup_unique (l : list Z) : NoDup (unique l).
Proof.
  induction l as [|y l IH]; simpl; [constructor|].
  constructor.
  - rewrite list_elem_of_filter. tauto.
  - by apply NoDup_filter.
Qed.

Lemma NoDup_sorted_unique (l : list Z) : NoDup (sorted (unique l)).
Proof. rewrite sorted_Permutation. apply NoDup_unique. Qed.

(** ** Lists, comprehensions and dictionaries *)

Lemma elem_of_map {A B} (f : A → B) (l : list A) (y : B) :
  y ∈ map f l ↔ ∃ x, y = f x ∧ x ∈ l.
Proof.
  rewrite list_elem_of_In, in_map_iff. setoid_rewrite list_elem_of_In.
  split; intros (x & ? & ?); exists x; auto.
Qed.

Lemma elem_of_list_prod {A B} (l : list A) (k : list B) (x : A * B) :
  x ∈ list_prod l k ↔ x.1 ∈ l ∧ x.2 ∈ k.
Proof. rewrite !list_elem_of_In. destruct x. apply in_prod_iff. Qed.

Lemma rmap_Ok_Forall2 {A B} (f : A → result B) (l : list A) (ys : list B) :
  rmap f l = Ok ys → Forall2 (λ x y, f x = Ok y) l ys.
Proof.
  revert ys. induction l as [|x l IH]; simpl; intros ys H.
  - injection H as <-. constructor.
  - destruct (f x) as [y|e] eqn:Hx; simpl in H; [|done].
    destruct (rmap f l) as [ys'|e]; simpl in H; [|done].
    injection H as <-. constructor; auto.
Qed.

Lemma rmap_total {A B} (f : A → result B) (l : list A) :
  (∀ x, x ∈ l → ∃ y, f x = Ok y) → ∃ ys, rmap f l = Ok ys.
Proof.
  induction l as [|x l IH]; simpl; intros H; [by eexists|].
  destruct (H x) as [y ->]; [by left|].
  destruct IH as [ys ->]; [intros; apply H; by right|].
  by eexists.
Qed.

Lemma rmap_Raise {A B} (f : A → result B) (l : list A) (e : exn) :
  rmap f l = Raise e → ∃ x, x ∈ l ∧ f x = Raise e.
Proof.
  induction l as [|x l IH]; simpl; [done|].
  destruct (f x) as [y|e'] eqn:Hx; simpl.
  - destruct (rmap f l) as [ys|e'']; simpl; [done|].
    intros [= ->]. destruct IH as (x' & ? & ?); [done|].
    exists x'. split; [by right|done].
  - intros [= ->]. exists x. split; [by left|done].
Qed.

Lemma rmap_pure {A B} (g : A → B) (l : list A) :
  rmap (λ x, Ok (g x)) l = Ok (map g l).
Proof. induction l as [|x l IH]; simpl; [done|]. by rewrite IH. Qed.

Lemma rmap_ext {A B} (f g : A → result B) (l : list A) :
  (∀ x, x ∈ l → f x = g x) → rmap f l = rmap g l.
Proof.
  induction l as [|x l IH]; simpl; intros H; [done|].
  rewrite (H x) by (by left). rewrite IH; [done|].
  intros; apply H; by right.
Qed.

(** A dict comprehension [{k(x): v(x) for x in l}] written over [m]. *)
Lemma lookup_foldl_insert `{Countable K} {V A} (key : A → K) (v : A → V)
    (l : list A) (m : gmap K V) (k : K) :
  foldl (λ m x, <[key x := v x]> m) m l !! k
  = match last (filter (λ x, key x = k) l) with
    | Some x => Some (v x)
    | None => m !! k
    end.
Proof.
  revert m. induction l as [|x l IH]; intros m; simpl; [done|].
  rewrite IH. rewrite filter_cons.
  destruct (decide (key x = k)) as [<-|Hne].
  - rewrite last_cons. destruct (last _); [done|]. by rewrite lookup_insert_eq.
  - destruct (last _); [done|]. by rewrite lookup_insert_ne.
Qed.

Lemma is_Some_foldl_insert `{Countable K} {V A} (key : A → K) (v : A → V)
    (l : list A) (k : K) :
  is_Some (foldl (λ m x, <[key x := v x]> m) (∅ : gmap K V) l !! k)
  ↔ k ∈ map key l.
Proof.
  rewrite lookup_foldl_insert, elem_of_map.
  destruct (last _) as [x|] eqn:Hl.
  - apply last_Some_elem_of, list_elem_of_filter in Hl as [<- ?].
    split; [intros _; by exists x|by eexists].
  - rewrite lookup_empty. apply last_None in Hl.
    split; [by intros []|]. intros (x & -> & Hx).
    assert (x ∈ filter (λ y, key y = key x) l) as Hin
      by (by apply list_elem_of_filter).
    rewrite Hl in Hin. by apply not_elem_of_nil in Hin.
Qed.

(** ** The model that [solve_allocation] writes *)

Import Sensitivity.

Lemma demand_dict_is_Some (demand_df : list DemandRow) (k : Z * Z) :
  is_Some (demand_dict demand_df !! k)
  ↔ k ∈ map (λ row, (area_of row, hour_of row)) demand_df.
Proof. apply is_Some_foldl_insert. Qed.

Lemma fill_caps_lookup (H : list Z) (F : Z) (hour_caps : option (gmap Z Z)) (h : Z) :
  fill_caps H F hour_caps !! h
  = if decide (h ∈ H) then Some (capacity F hour_caps h) else None.
Proof.
  assert (∀ g : Z → Z,
    foldl (λ m x, <[x := g x]> m) (∅ : gmap Z Z) H !! h
    = if decide (h ∈ H) then Some (g h) else None) as Hfold.
  { intros g. rewrite (lookup_foldl_insert (λ x, x) g).
    destruct (last _) as [x|] eqn:Hl.
    - apply last_Some_elem_of, list_elem_of_filter in Hl as [-> ?].
      by rewrite decide_True.
    - apply last_None in Hl. rewrite lookup_empty.
      destruct (decide (h ∈ H)) as [Hin|]; [|done].
      assert (h ∈ filter (λ x, x = h) H) as Hf by (by apply list_elem_of_filter).
      rewrite Hl in Hf. by apply not_elem_of_nil in Hf. }
  destruct hour_caps as [caps|]; simpl.
  - apply (Hfold (λ x, get caps x F)).
  - apply (Hfold (λ _, F)).
Qed.

Lemma covers_spec (demand_df : list DemandRow) :
  covers demand_df = true
  ↔ ∀ k, k ∈ list_prod (areas demand_df) (hours demand_df) →
         is_Some (demand_dict demand_df !! k).
Proof.
  unfold covers. rewrite forallb_forall.
  split; intros H k Hk.
  - apply list_elem_of_In, H in Hk. by apply bool_decide_eq_true in Hk.
  - apply bool_decide_eq_true, H. by apply list_elem_of_In.
Qed.

Lemma not_covers_spec (demand_df : list DemandRow) :
  covers demand_df = false →
  ∃ k, k ∈ list_prod (areas demand_df) (hours demand_df)
       ∧ demand_dict demand_df !! k = None.
Proof.
  unfold covers. intros H.
  assert (¬ Forall (λ k, is_Some (demand_dict demand_df !! k))
            (list_prod (areas demand_df) (hours demand_df))) as Hn.
  { intros HF. rewrite Forall_forall in HF.
    assert (forallb (λ k, bool_decide (is_Some (demand_dict demand_df !! k)))
              (list_prod (areas demand_df) (hours demand_df)) = true) as Ht.
    { apply forallb_forall. intros k Hk. apply bool_decide_eq_true, HF.
      by apply list_elem_of_In. }
    congruence. }
  apply not_Forall_Exists in Hn; [|apply _].
  apply Exists_exists in Hn as (k & Hk & Hnone).
  exists k. split; [done|]. by apply eq_None_not_Some.
Qed.

Lemma cover_constraint_Some (r : Q) (d : gmap (Z * Z) Q) (k : Z * Z) :
  is_Some (d !! k) →
  cover_constraint r d k
  = Ok (mkConstraint (cover k.1 k.2) [(r, X k.1 k.2); (1%Q, U k.1 k.2)] GE
          (get d k 0%Q)).
Proof.
  intros [dv Hdv]. unfold cover_constraint, get.
  by rewrite Hdv.
Qed.

(** The capacity row of hour [h] once the schedule is filled. *)
Lemma fleetcap_constraint_filled (A H : list Z) (F : Z)
    (hour_caps : option (gmap Z Z)) (h : Z) :
  h ∈ H →
  fleetcap_constraint A (fill_caps H F hour_caps) h
  = Ok (mkConstraint (fleetcap h) (map (λ a, (1%Q, X a h)) A) LE
          (inject_Z (capacity F hour_caps h))).
Proof.
  intros Hh. unfold fleetcap_constraint.
  by rewrite fill_caps_lookup, decide_True.
Qed.

(** On a table that covers its product the model is written in full. *)
Lemma model_of_covers (demand_df : list DemandRow) (F : Z) (r : Q)
    (int_vars : bool) (hour_caps : option (gmap Z Z)) :
  covers demand_df = true →
  model_of demand_df F r int_vars hour_caps
  = Ok (written demand_df F r int_vars hour_caps).
Proof.
  intros Hc. rewrite covers_spec in Hc.
  unfold model_of, build_model, written.
  rewrite (rmap_ext _ (λ k, Ok (mkConstraint (cover k.1 k.2)
             [(r, X k.1 k.2); (1%Q, U k.1 k.2)] GE
             (get (demand_dict demand_df) k 0%Q)))),
    rmap_pure by (intros; apply cover_constraint_Some; auto).
  simpl.
  rewrite (rmap_ext _ (λ h, Ok (mkConstraint (fleetcap h)
             (map (λ a, (1%Q, X a h)) (areas demand_df)) LE
             (inject_Z (capacity F hour_caps h))))), rmap_pure
    by (intros; by apply fleetcap_constraint_filled).
  done.
Qed.

Lemma model_of_Ok_written (demand_df : list DemandRow) (F : Z) (r : Q)
    (int_vars : bool) (hour_caps : option (gmap Z Z)) (p : LpProblem) :
  model_of demand_df F r int_vars hour_caps = Ok p →
  covers demand_df = true ∧ p = written demand_df F r int_vars hour_caps.
Proof.
  intros Hp. destruct (covers demand_df) eqn:Hc.
  - rewrite model_of_covers in Hp by done. by injection Hp as <-.
  - exfalso. revert Hp. unfold model_of, build_model.
    apply not_covers_spec in Hc as (k0 & Hk0 & Hnone).
    destruct (rmap (cover_constraint r (demand_dict demand_df)) _) as [cov|e] eqn:Hcov;
      [|done].
    apply rmap_Ok_Forall2 in Hcov.
    apply list_elem_of_lookup in Hk0 as [i Hi].
    destruct (Forall2_lookup_l _ _ _ _ _ Hcov Hi) as (c & _ & Hc).
    unfold cover_constraint in Hc. by rewrite Hnone in Hc.
Qed.

(** On any other table the first pair without a row raises [KeyError]. *)
Lemma model_of_not_covers (demand_df : list DemandRow) (F : Z) (r : Q)
    (int_vars : bool) (hour_caps : option (gmap Z Z)) :
  covers demand_df = false →
  ∃ a h, model_of demand_df F r int_vars hour_caps = Raise (KeyError_pair a h)
         ∧ a ∈ areas demand_df ∧ h ∈ hours demand_df
         ∧ demand_dict demand_df !! (a, h) = None.
Proof.
  intros Hc. apply not_covers_spec in Hc as (k0 & Hk0 & Hnone).
  unfold model_of, build_model.
  destruct (rmap (cover_constraint r (demand_dict demand_df)) _) as [cov|e] eqn:Hcov.
  - apply rmap_Ok_Forall2 in Hcov.
    apply list_elem_of_lookup in Hk0 as [i Hi].
    destruct (Forall2_lookup_l _ _ _ _ _ Hcov Hi) as (c & _ & Hc).
    unfold cover_constraint in Hc. by rewrite Hnone in Hc.
  - apply rmap_Raise in Hcov as (k & Hk & He).
    unfold cover_constraint in He.
    destruct (demand_dict demand_df !! k) eqn:Hd; [done|].
    injection He as <-. apply elem_of_list_prod in Hk as [? ?].
    exists k.1, k.2. simpl. by destruct k.
Qed.

Lemma model_of_Ok_covers (demand_df : list DemandRow) (F : Z) (r : Q)
    (int_vars : bool) (hour_caps : option (gmap Z Z)) (p : LpProblem) :
  model_of demand_df F r int_vars hour_caps = Ok p → covers demand_df = true.
Proof. intros Hp. by apply model_of_Ok_written in Hp as [? _]. Qed.

(** ** One call of [solve_allocation] *)

Lemma extract_row_Some (r : Q) (d : gmap (Z * Z) Q) (sol : Solution) (k : Z * Z) :
  is_Some (d !! k) → extract_row r d sol k = Ok (extracted r d sol k).
Proof.
  intros [dv Hdv]. unfold extract_row, extracted, get. rewrite Hdv. simpl.
  by destruct (value sol (X k.1 k.2)), (value sol (U k.1 k.2)).
Qed.

(** Once the model is written, the call goes to the solver once and returns
    the table extracted from the answer. *)
Lemma solve_allocation_Ok (solver : Solver) (demand_df : list DemandRow)
    (F : Z) (r : Q) (int_vars : bool) (hour_caps : option (gmap Z Z))
    (time_limit : option Z) (log : Log) (p : LpProblem) :
  model_of demand_df F r int_vars hour_caps = Ok p →
  solve_allocation solver demand_df F r int_vars hour_caps time_limit log
  = (let c := mkSolverCall p time_limit in
     let sol := solver log c in
     let rows := map (extracted r (demand_dict demand_df) sol)
                   (list_prod (areas demand_df) (hours demand_df)) in
     (Ok (mkAllocation rows (summarize sol rows F r int_vars)), log ++ [c])).
Proof.
  intros Hp. pose proof (model_of_Ok_covers _ _ _ _ _ _ Hp) as Hc.
  rewrite covers_spec in Hc.
  unfold solve_allocation, bind, lift, solve, ret.
  unfold model_of in Hp. rewrite Hp. simpl.
  rewrite (rmap_ext _ (λ k, Ok (extracted r (demand_dict demand_df)
             (solver log (mkSolverCall p time_limit)) k))), rmap_pure
    by (intros; apply extract_row_Some; auto).
  done.
Qed.

(** When the model cannot be written, the exception leaves the call before
    the solver is reached. *)
Lemma solve_allocation_Raise (solver : Solver) (demand_df : list DemandRow)
    (F : Z) (r : Q) (int_vars : bool) (hour_caps : option (gmap Z Z))
    (time_limit : option Z) (log : Log) (e : exn) :
  model_of demand_df F r int_vars hour_caps = Raise e →
  solve_allocation solver demand_df F r int_vars hour_caps time_limit log
  = (Raise e, log).
Proof.
  intros Hp. unfold solve_allocation, bind, lift.
  unfold model_of in Hp. by rewrite Hp.
Qed.

Lemma solve_allocation_inv (solver : Solver) (demand_df : list DemandRow)
    (F : Z) (r : Q) (int_vars : bool) (hour_caps : option (gmap Z Z))
    (time_limit : option Z) (log log' : Log) (res : Allocation) :
  solve_allocation solver demand_df F r int_vars hour_caps time_limit log
  = (Ok res, log') →
  ∃ p, model_of demand_df F r int_vars hour_caps = Ok p
       ∧ log' = log ++ [mkSolverCall p time_limit]
       ∧ res = (let sol := solver log (mkSolverCall p time_limit) in
                let rows := map (extracted r (demand_dict demand_df) sol)
                              (list_prod (areas demand_df) (hours demand_df)) in
                mkAllocation rows (summarize sol rows F r int_vars)).
Proof.
  intros Hrun.
  destruct (model_of demand_df F r int_vars hour_caps) as [p|e] eqn:Hp.
  - rewrite (solve_allocation_Ok _ _ _ _ _ _ _ _ p Hp) in Hrun.
    simpl in Hrun. injection Hrun as <- <-. by exists p.
  - by rewrite (solve_allocation_Raise _ _ _ _ _ _ _ _ e Hp) in Hrun.
Qed.

(** ** No validation in [solve_allocation] *)

(** C1, as stated, fails: an empty table, a negative rate and a negative
    capacity each pass through [solve_allocation] without an error, and each
    of the three calls reaches the solver once. *)
Lemma solve_allocation_accepts_invalid_input :
  (∃ res c, solve_allocation Examples.silent [] 10 2 true None None []
            = (Ok res, [c]))
  ∧ (∃ res c, solve_allocation Examples.silent Examples.table_2x2 10 (-1) true
                None None [] = (Ok res, [c]))
  ∧ (∃ res c, solve_allocation Examples.silent Examples.table_2x2 10 2 true
                (Some {[0 := -5]}) None [] = (Ok res, [c])).
Proof.
  split; [|split].
  - rewrite (solve_allocation_Ok _ _ _ _ _ _ _ _ _ (model_of_covers [] _ _ _ _ eq_refl)).
    by eexists _, _.
  - rewrite (solve_allocation_Ok _ _ _ _ _ _ _ _ _
               (model_of_covers Examples.table_2x2 _ _ _ _ eq_refl)).
    by eexists _, _.
  - rewrite (solve_allocation_Ok _ _ _ _ _ _ _ _ _
               (model_of_covers Examples.table_2x2 _ _ _ _ eq_refl)).
    by eexists _, _.
Qed.

(** C1, amended: [solve_allocation] validates neither the table nor the rate
    nor the capacities. For every Demand Table that has a row for each pair
    of its zones and hours (the empty table is one), and for every fleet
    size, rate and override mapping, whatever their signs, the model is
    written and submitted to the solver exactly once, and the call returns an
    allocation result. *)
Theorem solve_allocation_no_validation (solver : Solver)
    (demand_df : list DemandRow) (F : Z) (r : Q) (int_vars : bool)
    (hour_caps : option (gmap Z Z)) (time_limit : option Z) (log : Log) :
  covers demand_df = true →
  ∃ p res,
    model_of demand_df F r int_vars hour_caps = Ok p
    ∧ solve_allocation solver demand_df F r int_vars hour_caps time_limit log
      = (Ok res, log ++ [mkSolverCall p time_limit]).
Proof.
  intros Hc. eexists _, _. split; [by apply model_of_covers|].
  by rewrite (solve_allocation_Ok _ _ _ _ _ _ _ _ _ (model_of_covers _ _ _ _ _ Hc)).
Qed.

Lemma solve_allocation_no_validation_witness :
  covers Examples.table_2x2 = true
  ∧ ∃ p res,
      model_of Examples.table_2x2 10 (-1) true (Some {[0 := -5]}) = Ok p
      ∧ solve_allocation Examples.silent Examples.table_2x2 10 (-1) true
          (Some {[0 := -5]}) None []
        = (Ok res, [] ++ [mkSolverCall p None]).
Proof.
  split; [reflexivity|].
  apply (solve_allocation_no_validation Examples.silent Examples.table_2x2
           10 (-1) true (Some {[0 := -5]}) None []).
  reflexivity.
Defined.

(** ** Pairs without a row *)

(** C2 (the code departs from it): on a table that lacks a row for some
    pair of one of its zones and one of its hours, [solve_allocation] looks
    the pair up with [d[(a, h)]] and leaves with [KeyError] before the
    solver is reached, whereas [optimize.py] writes for every pair a coverage
    row whose right-hand side is [dem.get((a, h), 0.0)]. *)
Theorem solve_allocation_missing_pair_raises (solver : Solver)
    (demand_df : list DemandRow) (F : Z) (r : Q) (int_vars : bool)
    (hour_caps : option (gmap Z Z)) (time_limit : option Z) (log : Log) :
  covers demand_df = false →
  (∃ a h, a ∈ areas demand_df ∧ h ∈ hours demand_df
          ∧ demand_dict demand_df !! (a, h) = None
          ∧ solve_allocation solver demand_df F r int_vars hour_caps time_limit log
            = (Raise (KeyError_pair a h), log))
  ∧ (∀ k, k ∈ list_prod (Optimize.areas demand_df) (Optimize.hours demand_df) →
          ∃ c, c ∈ constraints (Optimize.model demand_df)
               ∧ c_name c = n_demand_cover k.1 k.2
               ∧ c_rhs c = default 0%Q (Optimize.dem demand_df !! k)).
Proof.
  intros Hc. split.
  - destruct (model_of_not_covers demand_df F r int_vars hour_caps Hc)
      as (a & h & He & Ha & Hh & Hnone).
    exists a, h. repeat split; [done..|].
    by apply solve_allocation_Raise.
  - intros k Hk.
    exists (Optimize.demand_cover Optimize.TRIPS_PER_TAXI_PER_HOUR
              (Optimize.dem demand_df) k).
    split; [|done].
    unfold Optimize.model. simpl. apply elem_of_app. left.
    apply elem_of_map. by exists k.
Qed.

(** What the call does on the sample table with two pairs missing. *)
Example solve_allocation_table_gap (solver : Solver) (log : Log) :
  solve_allocation solver Examples.table_gap 10 2 true None None log
  = (Raise (KeyError_pair 1 1), log).
Proof. reflexivity. Qed.

Lemma solve_allocation_missing_pair_raises_witness :
  covers Examples.table_gap = false
  ∧ (∃ a h, a ∈ areas Examples.table_gap ∧ h ∈ hours Examples.table_gap
            ∧ demand_dict Examples.table_gap !! (a, h) = None
            ∧ solve_allocation Examples.silent Examples.table_gap 10 2 true
                None None []
              = (Raise (KeyError_pair a h), [])).
Proof.
  split; [reflexivity|].
  apply (solve_allocation_missing_pair_raises Examples.silent
           Examples.table_gap 10 2 true None None [] eq_refl).
Defined.

(** ** The extracted table *)

Lemma extracted_keys (r : Q) (d : gmap (Z * Z) Q) (sol : Solution)
    (keys : list (Z * Z)) :
  map (λ row, (pickup_community_area row, hour row)) (map (extracted r d sol) keys)
  = keys.
Proof.
  induction keys as [|[a h] keys IH]; simpl; [done|]. by rewrite IH.
Qed.

Lemma forallb_map {A B} (f : B → bool) (g : A → B) (l : list A) :
  forallb f (map g l) = forallb (λ x, f (g x)) l.
Proof. induction l as [|x l IH]; simpl; [done|]. by rewrite IH. Qed.

(** What [optimize.py] does for a table: one solve, then the total is
    printed, which raises when some slack has no value, then the rows. *)
Lemma optimize_main_run (solver : Solver) (demand_df : list DemandRow) (log : Log) :
  let keys := list_prod (Optimize.areas demand_df) (Optimize.hours demand_df) in
  let c := mkSolverCall (Optimize.model demand_df) None in
  let sol := solver log c in
  Optimize.main solver demand_df log
  = (if forallb (λ k, bool_decide (is_Some (value sol (U k.1 k.2)))) keys
     then Ok (Optimize.rows demand_df sol)
     else Raise TypeError_round,
     log ++ [c]).
Proof.
  intros keys c sol.
  unfold Optimize.main, bind, solve, lift, ret. fold c sol.
  unfold Optimize.objective_value. cbn [Optimize.model objective].
  fold keys. rewrite forallb_map. cbn [snd].
  by destruct (forallb _ keys).
Qed.

Lemma optimize_rows_keys (demand_df : list DemandRow) (sol : Solution) :
  map (λ row, (Optimize.sol_area row, Optimize.sol_hour row))
    (Optimize.rows demand_df sol)
  = list_prod (Optimize.areas demand_df) (Optimize.hours demand_df).
Proof.
  unfold Optimize.rows. rewrite map_map.
  rewrite <- (map_id (list_prod _ _)) at 2. apply map_ext. by intros [].
Qed.

(** C3: every table that [solve_allocation] returns has one row per pair of
    a zone and an hour; the row of a pair carries the demand that the table
    gives the pair and the assignment that the solver left in the pair's
    variable (0 when it left none), and its [served] is the minimum of that
    demand and [r] times that assignment, so that it exceeds neither: no
    value of the solver other than the assignment enters it. When
    [optimize.py] tabulates, it fills [served_trips] in the same way from
    the demand of the pair (0 when the table has none) and the rounded
    assignment. *)
Theorem served_is_recomputed (solver : Solver) (demand_df : list DemandRow)
    (F : Z) (r : Q) (int_vars : bool) (hour_caps : option (gmap Z Z))
    (time_limit : option Z) (log log' : Log) (res : Allocation) :
  solve_allocation solver demand_df F r int_vars hour_caps time_limit log
  = (Ok res, log') →
  (∃ c, log' = log ++ [c]
        ∧ map (λ row, (pickup_community_area row, hour row)) (allocations res)
          = list_prod (areas demand_df) (hours demand_df)
        ∧ Forall (λ row,
            let a := pickup_community_area row in
            let h := hour row in
            demand_dict demand_df !! (a, h) = Some (demand row)
            ∧ x_taxis row = default 0%Q (value (solver log c) (X a h))
            ∧ served row = Qmin (demand row) (r * x_taxis row)
            ∧ (served row <= demand row)%Q
            ∧ (served row <= r * x_taxis row)%Q) (allocations res))
  ∧ ∀ log0 rows log0',
      Optimize.main solver demand_df log0 = (Ok rows, log0') →
      let sol := solver log0 (mkSolverCall (Optimize.model demand_df) None) in
      map (λ row, (Optimize.sol_area row, Optimize.sol_hour row)) rows
      = list_prod (Optimize.areas demand_df) (Optimize.hours demand_df)
      ∧ Forall (λ row,
          let a := Optimize.sol_area row in
          let h := Optimize.sol_hour row in
          Optimize.sol_demand row = default 0%Q (Optimize.dem demand_df !! (a, h))
          ∧ Optimize.assigned_taxis row
            = Optimize.py_round (default 0%Q (value sol (X a h)))
          ∧ Optimize.served_trips row
            = Qmin (Optimize.sol_demand row)
                (Optimize.TRIPS_PER_TAXI_PER_HOUR
                 * inject_Z (Optimize.assigned_taxis row))
          ∧ (Optimize.served_trips row <= Optimize.sol_demand row)%Q
          ∧ (Optimize.served_trips row
             <= Optimize.TRIPS_PER_TAXI_PER_HOUR
                * inject_Z (Optimize.assigned_taxis row))%Q) rows.
Proof.
  intros Hrun. split.
  - apply solve_allocation_inv in Hrun as (p & Hp & -> & ->).
    exists (mkSolverCall p time_limit). split; [done|].
    cbn [allocations]. split; [apply extracted_keys|].
    pose proof (model_of_Ok_covers _ _ _ _ _ _ Hp) as Hc. rewrite covers_spec in Hc.
    apply Forall_forall. intros row Hrow.
    apply elem_of_map in Hrow as (k & -> & Hk).
    destruct (Hc k Hk) as [dv Hdv]. destruct k as [a h].
    cbn [extracted pickup_community_area hour demand x_taxis served fst snd].
    unfold get. rewrite Hdv. cbn [default from_option id].
    split; [done|]. split; [done|]. split; [done|].
    split; [apply Q.le_min_l|apply Q.le_min_r].
  - intros log0 rows log0' Hmain. rewrite optimize_main_run in Hmain.
    destruct (forallb _ _); [|discriminate]. injection Hmain as <- <-.
    cbn zeta. split; [apply optimize_rows_keys|].
    apply Forall_forall. intros row Hrow.
    apply elem_of_map in Hrow as ([a h] & -> & _).
    cbn [Optimize.row Optimize.sol_area Optimize.sol_hour Optimize.sol_demand
         Optimize.assigned_taxis Optimize.served_trips fst snd].
    split; [done|]. split; [by destruct (value _ _)|]. split; [done|].
    split; [apply Q.le_min_l|apply Q.le_min_r].
Qed.

Lemma served_is_recomputed_witness :
  let solver := Examples.constant 3 1 in
  ∃ res c,
    solve_allocation solver Examples.table_2x2 10 2 true None None []
    = (Ok res, [] ++ [c])
    ∧ map (λ row, (pickup_community_area row, hour row)) (allocations res)
      = [(1, 0); (1, 1); (2, 0); (2, 1)]
    ∧ Forall (λ row,
        demand_dict Examples.table_2x2 !! (pickup_community_area row, hour row)
        = Some (demand row)
        ∧ x_taxis row = 3%Q
        ∧ served row = Qmin (demand row) (2 * x_taxis row)) (allocations res).
Proof.
  intros solver.
  destruct (served_is_recomputed solver Examples.table_2x2 10 2 true None None
              [] _ _ eq_refl) as [(c & Hlog & Hkeys & Hrows) _].
  eexists _, c. split; [by rewrite <- Hlog|]. split; [exact Hkeys|].
  eapply Forall_impl; [exact Hrows|]. by intros row (? & ? & ? & _).
Defined.

(** C8 (the code departs from it in [optimize.py]): in [solve_allocation],
    once the model is written, the call returns whatever the solver leaves
    in the variables, with one row per pair in which a variable without a
    value is read as 0 ([x_taxis] for an assignment, [unmet] for a slack)
    and a variable with a value as that value. [optimize.py] reads an
    assignment without a value as 0 as well, but only when every slack has a
    value: as soon as the solver leaves one slack of the table without a
    value, the script stops with [TypeError] at the printing of the total,
    after the solve and before any row is written. *)
Theorem unset_slack_stops_optimize (solver : Solver) (demand_df : list DemandRow)
    (F : Z) (r : Q) (int_vars : bool) (hour_caps : option (gmap Z Z))
    (time_limit : option Z) (log : Log) (p : LpProblem) :
  model_of demand_df F r int_vars hour_caps = Ok p →
  (let c := mkSolverCall p time_limit in
   let sol := solver log c in
   ∃ res,
     solve_allocation solver demand_df F r int_vars hour_caps time_limit log
     = (Ok res, log ++ [c])
     ∧ map (λ row, (pickup_community_area row, hour row)) (allocations res)
       = list_prod (areas demand_df) (hours demand_df)
     ∧ Forall (λ row,
         let a := pickup_community_area row in
         let h := hour row in
         (value sol (X a h) = None → x_taxis row = 0%Q)
         ∧ (value sol (U a h) = None → unmet row = 0%Q)
         ∧ (∀ q, value sol (X a h) = Some q → x_taxis row = q)
         ∧ (∀ q, value sol (U a h) = Some q → unmet row = q))
       (allocations res))
  ∧ (let keys := list_prod (Optimize.areas demand_df) (Optimize.hours demand_df) in
     let c := mkSolverCall (Optimize.model demand_df) None in
     let sol := solver log c in
     ((∃ k, k ∈ keys ∧ value sol (U k.1 k.2) = None) →
      Optimize.main solver demand_df log = (Raise TypeError_round, log ++ [c]))
     ∧ ((∀ k, k ∈ keys → is_Some (value sol (U k.1 k.2))) →
        ∃ rows,
          Optimize.main solver demand_df log = (Ok rows, log ++ [c])
          ∧ map (λ row, (Optimize.sol_area row, Optimize.sol_hour row)) rows = keys
          ∧ Forall (λ row,
              let a := Optimize.sol_area row in
              let h := Optimize.sol_hour row in
              (value sol (X a h) = None → Optimize.assigned_taxis row = 0)
              ∧ (∀ q, value sol (X a h) = Some q →
                      Optimize.assigned_taxis row = Optimize.py_round q)
              ∧ (∀ q, value sol (U a h) = Some q →
                      Optimize.unmet_trips row = Qmax 0 q)) rows)).
Proof.
  intros Hp. split.
  - intros c sol. eexists. split; [by apply solve_allocation_Ok|]. simpl.
    split; [apply extracted_keys|].
    apply Forall_forall. intros row Hrow.
    apply elem_of_map in Hrow as (k & -> & _). simpl.
    repeat split; intros; by simplify_option_eq.
  - intros keys c sol. rewrite optimize_main_run. fold keys c sol. split.
    + intros (k & Hk & Hnone).
      assert (forallb (λ k, bool_decide (is_Some (value sol (U k.1 k.2)))) keys = false)
        as ->; [|done].
      apply not_true_iff_false. rewrite forallb_forall. intros Hall.
      specialize (Hall k (proj1 (list_elem_of_In _ _) Hk)).
      apply bool_decide_eq_true in Hall. rewrite Hnone in Hall. by destruct Hall.
    + intros Hall.
      assert (forallb (λ k, bool_decide (is_Some (value sol (U k.1 k.2)))) keys = true)
        as ->.
      { apply forallb_forall. intros k Hk. apply bool_decide_eq_true, Hall.
        by apply list_elem_of_In. }
      eexists. split; [done|]. split; [apply optimize_rows_keys|].
      apply Forall_forall. intros row Hrow.
      apply elem_of_map in Hrow as ([a h] & -> & _).
      cbn [Optimize.row Optimize.sol_area Optimize.sol_hour Optimize.assigned_taxis
           Optimize.unmet_trips fst snd].
      split; [by intros ->|]. split; by intros q ->.
Qed.

Lemma unset_slack_stops_optimize_witness :
  ∃ p res,
    model_of Examples.table_2x2 10 2 true None = Ok p
    ∧ solve_allocation Examples.silent Examples.table_2x2 10 2 true None None []
      = (Ok res, [] ++ [mkSolverCall p None])
    ∧ Forall (λ row, x_taxis row = 0%Q ∧ unmet row = 0%Q) (allocations res)
    ∧ Optimize.main Examples.silent Examples.table_2x2 []
      = (Raise TypeError_round,
         [] ++ [mkSolverCall (Optimize.model Examples.table_2x2) None]).
Proof.
  eexists.
  destruct (unset_slack_stops_optimize Examples.silent Examples.table_2x2 10 2
              true None None [] _ eq_refl) as [(res & Hrun & _ & Hrows) [Hstop _]].
  exists res. split; [reflexivity|]. split; [exact Hrun|]. split.
  - eapply Forall_impl; [exact Hrows|].
    intros row (Hx & Hu & _). split; [by apply Hx|by apply Hu].
  - apply Hstop. exists (1, 0). split; [compute_done|reflexivity].
Defined.

(** ** The capacity schedule *)

Lemma fill_caps_agree (H : list Z) (F : Z) (caps caps' : gmap Z Z) :
  (∀ h, h ∈ H → caps' !! h = caps !! h) →
  fill_caps H F (Some caps') = fill_caps H F (Some caps).
Proof.
  intros Hagree. apply map_eq. intros h. rewrite !fill_caps_lookup.
  destruct (decide (h ∈ H)); [|done].
  simpl. unfold get. by rewrite Hagree.
Qed.

(** C10: with an override mapping, the schedule gives each hour of the table
    that the mapping lists the listed value and each hour of the table that
    it does not list the fleet size [F]; it has no entry for any other hour.
    The capacity rows of the model are those of the hours of the table, each
    bounded by the schedule, and entries of the mapping for other hours
    change nothing in the call. A call of [solve_allocation] with the
    mapping either stops with [KeyError] on a pair without demand, before
    any solve, or submits one problem, whose rows are the coverage rows
    followed by one capacity row for each hour of the table, in ascending
    order, bounded by the listed value if the mapping lists the hour and by
    [F] if not. *)
Theorem partial_override_schedule (demand_df : list DemandRow) (F : Z) (r : Q)
    (int_vars : bool) (caps : gmap Z Z) :
  let H := hours demand_df in
  let schedule := fill_caps H F (Some caps) in
  (∀ h c, h ∈ H → caps !! h = Some c → schedule !! h = Some c)
  ∧ (∀ h, h ∈ H → caps !! h = None → schedule !! h = Some F)
  ∧ (∀ h, h ∉ H → schedule !! h = None)
  ∧ (∀ p, model_of demand_df F r int_vars (Some caps) = Ok p →
       (∀ h, h ∈ H → ∃ c, c ∈ constraints p ∧ c_name c = fleetcap h)
       ∧ (∀ c h, c ∈ constraints p → c_name c = fleetcap h →
            h ∈ H ∧ c_sense c = LE
            ∧ c_lhs c = map (λ a, (1%Q, X a h)) (areas demand_df)
            ∧ schedule !! h = Some (capacity F (Some caps) h)
            ∧ c_rhs c = inject_Z (capacity F (Some caps) h)))
  ∧ (∀ caps' solver time_limit log,
       (∀ h, h ∈ H → caps' !! h = caps !! h) →
       solve_allocation solver demand_df F r int_vars (Some caps') time_limit log
       = solve_allocation solver demand_df F r int_vars (Some caps) time_limit log)
  ∧ (∀ solver time_limit log,
       (∃ a h, a ∈ areas demand_df ∧ h ∈ H
               ∧ demand_dict demand_df !! (a, h) = None
               ∧ solve_allocation solver demand_df F r int_vars (Some caps)
                   time_limit log
                 = (Raise (KeyError_pair a h), log))
       ∨ (∃ res p cov,
            solve_allocation solver demand_df F r int_vars (Some caps)
              time_limit log
            = (Ok res, log ++ [mkSolverCall p time_limit])
            ∧ Forall (λ c, ∃ a h, c_name c = cover a h) cov
            ∧ constraints p
              = cov ++ map (λ h, mkConstraint (fleetcap h)
                                   (map (λ a, (1%Q, X a h)) (areas demand_df)) LE
                                   (inject_Z (match caps !! h with
                                              | Some c => c
                                              | None => F
                                              end))) H)).
Proof.
  intros H schedule. subst schedule H.
  split; [|split; [|split; [|split; [|split]]]].
  - intros h c Hh Hc. rewrite fill_caps_lookup, decide_True by done.
    simpl. unfold get. by rewrite Hc.
  - intros h Hh Hc. rewrite fill_caps_lookup, decide_True by done.
    simpl. unfold get. by rewrite Hc.
  - intros h Hh. by rewrite fill_caps_lookup, decide_False.
  - intros p Hp.
    pose proof (model_of_Ok_covers _ _ _ _ _ _ Hp) as Hc.
    rewrite (model_of_covers _ F r int_vars (Some caps) Hc) in Hp.
    injection Hp as <-. cbn [constraints]. split.
    + intros h Hh. eexists. split.
      * apply elem_of_app. right. apply elem_of_map. by exists h.
      * done.
    + intros c h Hin Hname. apply elem_of_app in Hin as [Hin|Hin].
      * apply elem_of_map in Hin as (k & -> & _). done.
      * apply elem_of_map in Hin as (h' & -> & Hh'). simpl in Hname.
        injection Hname as ->. do 3 (split; [done|]). split; [|done].
        by rewrite fill_caps_lookup, decide_True.
  - intros caps' solver time_limit log Hagree.
    unfold solve_allocation. by rewrite (fill_caps_agree _ _ _ _ Hagree).
  - intros solver time_limit log.
    destruct (covers demand_df) eqn:Hc.
    + right. eexists _, (written demand_df F r int_vars (Some caps)), _.
      split; [by apply solve_allocation_Ok, model_of_covers|].
      cbn [written constraints]. split; [|reflexivity].
      apply Forall_forall. intros c Hin.
      apply elem_of_map in Hin as (k & -> & _). by eexists _, _.
    + left.
      destruct (model_of_not_covers demand_df F r int_vars (Some caps) Hc)
        as (a & h & He & Ha & Hh & Hnone).
      exists a, h. repeat split; [done..|]. by apply solve_allocation_Raise.
Qed.

Lemma partial_override_schedule_witness :
  let caps : gmap Z Z := {[1 := 7; 99 := 4]} in
  let schedule := fill_caps (hours Examples.table_2x2) 10 (Some caps) in
  schedule !! 1 = Some 7 ∧ schedule !! 0 = Some 10 ∧ schedule !! 99 = None
  ∧ (∀ solver time_limit log,
       solve_allocation solver Examples.table_2x2 10 2 true (Some {[1 := 7]})
         time_limit log
       = solve_allocation solver Examples.table_2x2 10 2 true (Some caps)
           time_limit log)
  ∧ ∃ res p cov,
      solve_allocation Examples.silent Examples.table_2x2 10 2 true (Some caps)
        None []
      = (Ok res, [] ++ [mkSolverCall p None])
      ∧ Forall (λ c, ∃ a h, c_name c = cover a h) cov
      ∧ constraints p
        = cov ++ [mkConstraint (fleetcap 0) [(1%Q, X 1 0); (1%Q, X 2 0)] LE 10%Q;
                  mkConstraint (fleetcap 1) [(1%Q, X 1 1); (1%Q, X 2 1)] LE 7%Q].
Proof.
  intros caps schedule.
  destruct (partial_override_schedule Examples.table_2x2 10 2 true caps)
    as (Hlisted & Hunlisted & Hother & _ & Hignored & Hcall).
  split; [apply Hlisted; compute_done|].
  split; [apply Hunlisted; compute_done|].
  split; [apply Hother; compute_done|].
  split.
  - intros solver time_limit log. apply Hignored.
    intros h Hh. vm_compute in Hh.
    apply elem_of_cons in Hh as [->|Hh]; [reflexivity|].
    apply elem_of_cons in Hh as [->|Hh]; [reflexivity|].
    inversion Hh.
  - destruct (Hcall Examples.silent None [])
      as [(a & h & _ & _ & _ & Hraise)|(res & p & cov & Hrun & Hcov & Hcons)].
    + discriminate Hraise.
    + exists res, p, cov. split; [exact Hrun|]. split; [exact Hcov|].
      rewrite Hcons. reflexivity.
Defined.

(** ** Loops over the solver *)

Lemma solve_allocation_covers (solver : Solver) (demand_df : list DemandRow)
    (F : Z) (r : Q) (int_vars : bool) (hour_caps : option (gmap Z Z))
    (time_limit : option Z) (log : Log) :
  covers demand_df = true →
  solve_allocation solver demand_df F r int_vars hour_caps time_limit log
  = (let c := submitted demand_df F r int_vars hour_caps time_limit in
     (Ok (outcome demand_df F r int_vars (solver log c)), log ++ [c])).
Proof.
  intros Hc.
  by rewrite (solve_allocation_Ok _ _ _ _ _ _ _ _ _ (model_of_covers _ _ _ _ _ Hc)).
Qed.

Lemma solve_allocation_not_covers (solver : Solver) (demand_df : list DemandRow)
    (F : Z) (r : Q) (int_vars : bool) (hour_caps : option (gmap Z Z))
    (time_limit : option Z) (log : Log) :
  covers demand_df = false →
  ∃ a h, a ∈ areas demand_df ∧ h ∈ hours demand_df
         ∧ demand_dict demand_df !! (a, h) = None
         ∧ solve_allocation solver demand_df F r int_vars hour_caps time_limit log
           = (Raise (KeyError_pair a h), log).
Proof.
  intros Hc.
  destruct (model_of_not_covers demand_df F r int_vars hour_caps Hc)
    as (a & h & He & Ha & Hh & Hnone).
  exists a, h. repeat split; [done..|]. by apply solve_allocation_Raise.
Qed.

(** A loop whose body does nothing returns what it was given. *)
Lemma for_in_skip {A S} (l : list A) (body : A → S → Run S) (s : S) (log : Log) :
  (∀ x s log, body x s log = (Ok s, log)) →
  for_in l body s log = (Ok s, log).
Proof.
  intros Hbody. induction l as [|x l IH]; simpl; [done|].
  unfold bind. by rewrite Hbody.
Qed.

(** A loop whose first round raises, raises. *)
Lemma for_in_raise_first {A S} (x : A) (l : list A) (body : A → S → Run S)
    (s : S) (log log' : Log) (e : exn) :
  body x s log = (Raise e, log') →
  for_in (x :: l) body s log = (Raise e, log').
Proof. intros Hbody. simpl. unfold bind. by rewrite Hbody. Qed.

(** A loop in which every round adds its rows and its calls. *)
Lemma for_in_rounds {A R} (rows_of : A → Log → list R)
    (calls_of : A → list SolverCall) (body : A → list R → Run (list R))
    (l : list A) :
  (∀ x rows log, body x rows log = (Ok (rows ++ rows_of x log), log ++ calls_of x)) →
  ∀ rows log,
    for_in l body rows log
    = (Ok (rows ++ rounds rows_of calls_of l log), log ++ concat (map calls_of l)).
Proof.
  intros Hbody. induction l as [|x l IH]; intros rows log; simpl.
  - by rewrite !app_nil_r.
  - unfold bind. rewrite Hbody, IH. by rewrite <- !app_assoc.
Qed.

Lemma rounds_map {A R K} (key : R → K) (keys_of : A → list K)
    (rows_of : A → Log → list R) (calls_of : A → list SolverCall) (l : list A) :
  (∀ x log, map key (rows_of x log) = keys_of x) →
  ∀ log, map key (rounds rows_of calls_of l log) = concat (map keys_of l).
Proof.
  intros Hkey. induction l as [|x l IH]; intros log; simpl; [done|].
  by rewrite map_app, Hkey, IH.
Qed.

Lemma concat_map_singleton {A B} (f : A → B) (l : list A) :
  concat (map (λ x, [f x]) l) = map f l.
Proof. induction l as [|x l IH]; simpl; [done|]. by rewrite IH. Qed.

Lemma concat_map_list_prod {A B C} (f : A → B → C) (l : list A) (k : list B) :
  concat (map (λ x, map (f x) k) l) = map (λ p, f p.1 p.2) (list_prod l k).
Proof.
  induction l as [|x l IH]; simpl; [done|].
  rewrite IH, map_app, map_map. done.
Qed.

(** ** The sensitivity grid *)

Lemma r_F_leb_spec (s1 s2 : Summary) :
  before r_F_leb s1 s2
  ↔ (s_r s1 < s_r s2)%Q ∨ ((s_r s1 == s_r s2)%Q ∧ s_F s1 ≤ s_F s2).
Proof.
  unfold before, r_F_leb.
  rewrite orb_true_iff, andb_true_iff, negb_true_iff, Z.leb_le, Qeq_bool_iff.
  rewrite <- not_true_iff_false, Qle_bool_iff. split.
  - intros [H|H]; [left; by apply Qnot_le_lt|by right].
  - intros [H|H]; [left; by apply Qlt_not_le|by right].
Qed.

Lemma r_F_leb_total (s1 s2 : Summary) :
  r_F_leb s1 s2 = true ∨ r_F_leb s2 s1 = true.
Proof.
  change (before r_F_leb s1 s2 ∨ before r_F_leb s2 s1).
  rewrite !r_F_leb_spec.
  destruct (Q_dec (s_r s1) (s_r s2)) as [[Hlt|Hgt]|Heq]; [by left; left|by right; left|].
  destruct (Z.le_ge_cases (s_F s1) (s_F s2)).
  - left; by right.
  - right; right. split; [by symmetry|done].
Qed.

(** One round of the inner loop of [run_sensitivity]. *)
Lemma sensitivity_round (solver : Solver) (demand_df : list DemandRow)
    (int_vars : bool) (time_limit : option Z) (r : Q) (F : Z)
    (rows : list Summary) (log : Log) :
  covers demand_df = true →
  bind (solve_allocation solver demand_df F r int_vars None time_limit)
    (λ res, ret (rows ++ [summary res])) log
  = (let c := submitted demand_df F r int_vars None time_limit in
     (Ok (rows ++ [summary (outcome demand_df F r int_vars (solver log c))]),
      log ++ [c])).
Proof. intros Hc. unfold bind. by rewrite solve_allocation_covers. Qed.

(** On a table that covers its product and with two non-empty grids, the
    runner submits one problem per pair, rate by rate and fleet size by fleet
    size, and returns one record per pair, in ascending order of (r, F). *)
Lemma run_sensitivity_covers (solver : Solver) (demand_df : list DemandRow)
    (F_grid : list Z) (r_grid : list Q) (int_vars : bool)
    (time_limit : option Z) (log : Log) :
  covers demand_df = true → F_grid ≠ [] → r_grid ≠ [] →
  ∃ sens_df,
    run_sensitivity solver demand_df F_grid r_grid int_vars time_limit log
    = (Ok sens_df,
       log ++ map (λ p, submitted demand_df p.2 p.1 int_vars None time_limit)
                (list_prod r_grid F_grid))
    ∧ columns sens_df = summary_keys
    ∧ length (records sens_df) = (length F_grid * length r_grid)%nat
    ∧ map (λ s, (s_r s, s_F s)) (records sens_df) ≡ₚ list_prod r_grid F_grid
    ∧ Sorted (before r_F_leb) (records sens_df).
Proof.
  intros Hc HF Hr. unfold run_sensitivity.
  set (row1 := λ (r : Q) (F : Z) (log : Log),
         [summary (outcome demand_df F r int_vars
            (solver log (submitted demand_df F r int_vars None time_limit)))]).
  set (call1 := λ (r : Q) (F : Z),
         [submitted demand_df F r int_vars None time_limit]).
  assert (∀ r rows log,
    for_in F_grid (λ F rows,
      bind (solve_allocation solver demand_df F r int_vars None time_limit)
        (λ res, ret (rows ++ [summary res]))) rows log
    = (Ok (rows ++ rounds (row1 r) (call1 r) F_grid log),
       log ++ concat (map (call1 r) F_grid))) as Hinner.
  { intros r. apply for_in_rounds. intros F rows log'.
    by apply sensitivity_round. }
  unfold bind at 1.
  rewrite (for_in_rounds (λ r, rounds (row1 r) (call1 r) F_grid)
             (λ r, concat (map (call1 r) F_grid))) by apply Hinner.
  set (rows := rounds _ _ r_grid log).
  assert (map (λ s, (s_r s, s_F s)) rows = list_prod r_grid F_grid) as Hkeys.
  { unfold rows.
    rewrite (rounds_map _ (λ r, map (λ F, (r, F)) F_grid)).
    - rewrite (concat_map_list_prod (λ r F, (r, F))).
      rewrite <- (map_id (list_prod r_grid F_grid)) at 2.
      apply map_ext. by intros [].
    - intros r log'.
      rewrite (rounds_map _ (λ F, [(r, F)])) by done.
      apply concat_map_singleton. }
  assert (length rows = (length F_grid * length r_grid)%nat) as Hlen.
  { rewrite <- (length_map (λ s, (s_r s, s_F s))), Hkeys, length_prod. lia. }
  assert (rows ≠ []) as Hne.
  { intros Hnil. rewrite Hnil in Hlen. simpl in Hlen.
    destruct F_grid, r_grid; simpl in Hlen; done. }
  simpl app at 1. unfold lift, sort_values, from_dicts.
  destruct rows as [|s rows'] eqn:Hrows; [done|].
  simpl. eexists. split; [f_equal|].
  - f_equal.
    rewrite (map_ext (λ r, concat (map (call1 r) F_grid))
               (λ r, map (λ F, submitted demand_df F r int_vars None time_limit)
                       F_grid))
      by (intros r; apply concat_map_singleton).
    apply (concat_map_list_prod
             (λ r F, submitted demand_df F r int_vars None time_limit)).
  - cbn [columns records]. split; [done|]. split; [|split].
    + rewrite <- Hlen. apply (sort_stable_length r_F_leb (s :: rows')).
    + rewrite <- Hkeys.
      apply Permutation_map, (sort_stable_Permutation r_F_leb (s :: rows')).
    + apply (sort_stable_Sorted r_F_leb r_F_leb_total (s :: rows')).
Qed.

(** C4 (the code departs from it): on a table that lacks a row for some pair
    of one of its zones and one of its hours, the runner with two non-empty
    grids performs no solve and returns no record; the first call of
    [solve_allocation] raises [KeyError] for the pair, and the runner lets it
    through. *)
Theorem run_sensitivity_missing_pair_raises (solver : Solver)
    (demand_df : list DemandRow) (F_grid : list Z) (r_grid : list Q)
    (int_vars : bool) (time_limit : option Z) (log : Log) :
  covers demand_df = false → F_grid ≠ [] → r_grid ≠ [] →
  ∃ a h, a ∈ areas demand_df ∧ h ∈ hours demand_df
         ∧ demand_dict demand_df !! (a, h) = None
         ∧ run_sensitivity solver demand_df F_grid r_grid int_vars time_limit log
           = (Raise (KeyError_pair a h), log).
Proof.
  intros Hc HF Hr.
  destruct F_grid as [|F F_grid]; [done|].
  destruct r_grid as [|r r_grid]; [done|].
  destruct (solve_allocation_not_covers solver demand_df F r int_vars None
              time_limit log Hc) as (a & h & Ha & Hh & Hnone & Hrun).
  exists a, h. repeat split; [done..|].
  unfold run_sensitivity. unfold bind at 1.
  erewrite for_in_raise_first; [done|].
  erewrite for_in_raise_first; [done|].
  unfold bind. by rewrite Hrun.
Qed.

Lemma run_sensitivity_missing_pair_raises_witness :
  covers Examples.table_gap = false ∧ [5; 10] ≠ [] ∧ [1%Q] ≠ []
  ∧ ∃ a h, a ∈ areas Examples.table_gap ∧ h ∈ hours Examples.table_gap
           ∧ demand_dict Examples.table_gap !! (a, h) = None
           ∧ run_sensitivity Examples.silent Examples.table_gap [5; 10] [1%Q]
               true None []
             = (Raise (KeyError_pair a h), []).
Proof.
  split; [reflexivity|]. split; [discriminate|]. split; [discriminate|].
  apply (run_sensitivity_missing_pair_raises Examples.silent Examples.table_gap
           [5; 10] [1%Q] true None []); [reflexivity|discriminate|discriminate].
Defined.

(** What the runner does on the sample table with two pairs missing. *)
Example run_sensitivity_table_gap (solver : Solver) (log : Log) :
  run_sensitivity solver Examples.table_gap [5; 10] [1%Q] true None log
  = (Raise (KeyError_pair 1 1), log).
Proof. reflexivity. Qed.

(** C7 (the code departs from it): with an empty grid of fleet sizes, or an
    empty grid of rates, no solve is made and no summary is collected; the
    frame built from the empty list has no column, and sorting it by "r"
    raises [KeyError]. *)
Theorem run_sensitivity_empty_grid_raises :
  (∀ solver demand_df r_grid int_vars time_limit log,
     run_sensitivity solver demand_df [] r_grid int_vars time_limit log
     = (Raise (KeyError_label "r"), log))
  ∧ (∀ solver demand_df F_grid int_vars time_limit log,
       run_sensitivity solver demand_df F_grid [] int_vars time_limit log
       = (Raise (KeyError_label "r"), log)).
Proof.
  split; intros; unfold run_sensitivity; unfold bind at 1.
  - by rewrite for_in_skip.
  - done.
Qed.

(** ** The marginal value per hour *)

Lemma Sorted_map {A B} (R : B → B → Prop) (f : A → B) (l : list A) :
  Sorted R (map f l) → Sorted (λ x y, R (f x) (f y)) l.
Proof.
  induction l as [|x l IH]; simpl; intros H; [constructor|].
  apply Sorted_inv in H as [Hl Hhd]. constructor; [auto|].
  destruct l; simpl in *; constructor. by apply HdRel_inv in Hhd.
Qed.

Lemma hours_nonempty (demand_df : list DemandRow) :
  demand_df ≠ [] → hours demand_df ≠ [].
Proof.
  destruct demand_df as [|row demand_df]; [done|]. intros _ Hnil.
  assert (hour_of row ∈ hours (row :: demand_df)) as Hin.
  { unfold hours. rewrite elem_of_sorted, elem_of_unique. by left. }
  rewrite Hnil in Hin. inversion Hin.
Qed.

(** The schedule of the analyser for hour [h]: [F + delta] at [h], [F] at
    every other hour. *)
Lemma bumped_caps_capacity (hs : list Z) (F delta h h' : Z) :
  h' ∈ hs →
  capacity F (Some (bumped_caps hs F delta h)) h'
  = if decide (h' = h) then F + delta else F.
Proof.
  intros Hh'. unfold capacity, get, bumped_caps.
  destruct (decide (h' = h)) as [->|Hne].
  - by rewrite lookup_insert_eq.
  - rewrite lookup_insert_ne by done.
    pose proof (fill_caps_lookup hs F None h') as Hfill. simpl in Hfill.
    rewrite Hfill, decide_True by done. done.
Qed.

(** On a non-empty table that covers its product, the analyser solves the
    baseline, then one problem per hour, and returns one row per hour in
    ascending order of the hour. *)
Lemma marginal_value_per_hour_covers (solver : Solver)
    (demand_df : list DemandRow) (F : Z) (r : Q) (delta : Z) (int_vars : bool)
    (time_limit : option Z) (log : Log) :
  covers demand_df = true → demand_df ≠ [] →
  let base_call := submitted demand_df F r int_vars None time_limit in
  let base_unmet :=
    s_objective_unmet (summary (outcome demand_df F r int_vars (solver log base_call))) in
  let call := bumped_call demand_df F r delta int_vars time_limit in
  let rows :=
    rounds (λ h log, [marginal_row solver demand_df F r delta int_vars
                        time_limit base_unmet h log])
      (λ h, [call h]) (hours demand_df) (log ++ [base_call]) in
  marginal_value_per_hour solver demand_df F r delta int_vars time_limit log
  = (Ok (mkDataFrame marginal_keys rows),
     log ++ base_call :: map call (hours demand_df))
  ∧ map mv_hour rows = hours demand_df
  ∧ Forall (λ row, mv_deltaF_at_hour row = delta) rows.
Proof.
  intros Hc Hne base_call base_unmet call rows.
  assert (map mv_hour rows = hours demand_df) as Hhours.
  { unfold rows. rewrite (rounds_map _ (λ h, [h])) by done.
    rewrite (concat_map_singleton (λ h, h)). apply map_id. }
  split; [|split; [done|]].
  - unfold marginal_value_per_hour. unfold bind at 1.
    rewrite solve_allocation_covers by done. fold base_call.
    cbv zeta. fold base_unmet. unfold bind at 1.
    rewrite (for_in_rounds
               (λ h log, [marginal_row solver demand_df F r delta int_vars
                            time_limit base_unmet h log]) (λ h, [call h])).
    + fold rows. simpl app at 1.
      rewrite concat_map_singleton, <- app_assoc. simpl app at 2.
      unfold lift, sort_values, from_dicts.
      destruct rows as [|row rows'] eqn:Hrows.
      { apply hours_nonempty in Hne. by rewrite <- Hhours in Hne. }
      simpl. do 3 f_equal.
      apply (sort_stable_id hour_leb (row :: rows')).
      apply (Sorted_weaken (λ x y, mv_hour x ≤ mv_hour y)).
      * intros x y Hxy. by apply Z.leb_le.
      * apply (Sorted_map Z.le). rewrite Hhours. apply sorted_Sorted.
    + intros h out log'. unfold bind.
      by rewrite solve_allocation_covers.
  - unfold rows. clear. generalize (log ++ [base_call]).
    induction (hours demand_df) as [|h hs IH]; intros log'; simpl; [constructor|].
    constructor; [done|apply IH].
Qed.

(** The analyser on a table that lacks a row for some pair. *)
Lemma marginal_value_not_covers (solver : Solver)
    (demand_df : list DemandRow) (F : Z) (r : Q) (delta : Z) (int_vars : bool)
    (time_limit : option Z) (log : Log) :
  covers demand_df = false →
  ∃ a h, a ∈ areas demand_df ∧ h ∈ hours demand_df
         ∧ demand_dict demand_df !! (a, h) = None
         ∧ marginal_value_per_hour solver demand_df F r delta int_vars time_limit log
           = (Raise (KeyError_pair a h), log).
Proof.
  intros Hc.
  destruct (solve_allocation_not_covers solver demand_df F r int_vars None
              time_limit log Hc) as (a & h & Ha & Hh & Hnone & Hrun).
  exists a, h. repeat split; [done..|].
  unfold marginal_value_per_hour. unfold bind at 1. by rewrite Hrun.
Qed.

(** C5 (the code departs from it): on a table that lacks a row for some pair
    of one of its zones and one of its hours, the analyser solves no
    baseline and returns no row; its first call of [solve_allocation] raises
    [KeyError] for the pair, and the analyser lets it through. *)
Theorem marginal_value_missing_pair_raises (solver : Solver)
    (demand_df : list DemandRow) (F : Z) (r : Q) (delta : Z) (int_vars : bool)
    (time_limit : option Z) (log : Log) :
  covers demand_df = false →
  ∃ a h, a ∈ areas demand_df ∧ h ∈ hours demand_df
         ∧ demand_dict demand_df !! (a, h) = None
         ∧ marginal_value_per_hour solver demand_df F r delta int_vars time_limit log
           = (Raise (KeyError_pair a h), log).
Proof. apply marginal_value_not_covers. Qed.

Lemma marginal_value_missing_pair_raises_witness :
  covers Examples.table_gap = false
  ∧ ∃ a h, a ∈ areas Examples.table_gap ∧ h ∈ hours Examples.table_gap
           ∧ demand_dict Examples.table_gap !! (a, h) = None
           ∧ marginal_value_per_hour Examples.silent Examples.table_gap 10 2 1
               true None []
             = (Raise (KeyError_pair a h), []).
Proof.
  split; [reflexivity|].
  apply (marginal_value_missing_pair_raises Examples.silent Examples.table_gap
           10 2 1 true None []).
  reflexivity.
Defined.

(** What the analyser does on the sample table with two pairs missing, and
    on the table without rows (there the baseline is solved, and sorting the
    frame without columns by "hour" raises). *)
Example marginal_value_table_gap (solver : Solver) (log : Log) :
  marginal_value_per_hour solver Examples.table_gap 10 2 1 true None log
  = (Raise (KeyError_pair 1 1), log)
  ∧ marginal_value_per_hour solver [] 10 2 1 true None log
    = (Raise (KeyError_label "hour"), log ++ [submitted [] 10 2 true None None]).
Proof. split; reflexivity. Qed.

(** ** Exact solving: more capacity or more throughput never hurts *)

Lemma eval_cons (c : Q) (x : Var) (e : LinExpr) (v : Var → option Q) :
  eval ((c, x) :: e) v = (c * val v x + eval e v)%Q.
Proof. reflexivity. Qed.




(** The sample solver is exact on the one-cell table. *)
Lemma one_cell_written (F : Z) (r : Q) (int_vars : bool)
    (hour_caps : option (gmap Z Z)) :
  written Examples.one_cell F r int_vars hour_caps
  = mkLpProblem "taxi_allocation_min_unmet" dicts_names
      (if int_vars then LpInteger else LpContinuous) [(1, 0)] [(1, 0)]
      [(1%Q, U 1 0)]
      [mkConstraint (cover 1 0) [(r, X 1 0); (1%Q, U 1 0)] GE 5;
       mkConstraint (fleetcap 0) [(1%Q, X 1 0)] LE (inject_Z (capacity F hour_caps 0))].
Proof. reflexivity. Qed.

Lemma fill_to_capacity_exact (F : Z) (r : Q) (int_vars : bool)
    (hour_caps : option (gmap Z Z)) (time_limit : option Z) (log : Log) :
  (0 <= r)%Q → 0 ≤ capacity F hour_caps 0 →
  optimal (written Examples.one_cell F r int_vars hour_caps)
    (value (Examples.fill_to_capacity log
              (submitted Examples.one_cell F r int_vars hour_caps time_limit))).
Proof.
  intros Hr Hcap. unfold submitted, Examples.fill_to_capacity.
  cbn [call_problem]. rewrite one_cell_written. cbn [constraints c_lhs c_rhs value].
  set (cap := inject_Z (capacity F hour_caps 0)).
  assert (0 <= cap)%Q as Hcap'
    by (unfold cap; change 0%Q with (inject_Z 0); by rewrite <- Zle_Qle).
  set (rcap := (r * cap)%Q).
  pose proof (Q.le_max_l 0 (5 - rcap)) as Hmax0.
  pose proof (Q.le_max_r 0 (5 - rcap)) as Hmax1.
  split.
  - constructor; cbn [x_keys u_keys x_cat constraints].
    + intros k Hk. apply list_elem_of_singleton in Hk as ->. done.
    + intros _ k Hk. apply list_elem_of_singleton in Hk as ->.
      by exists (capacity F hour_caps 0).
    + intros k Hk. apply list_elem_of_singleton in Hk as ->. done.
    + constructor; [|constructor; [|constructor]];
        unfold satisfies; cbn [c_sense c_rhs c_lhs];
        rewrite !eval_cons; unfold val; cbn [default from_option id];
        change (eval [] ?v) with 0%Q; fold rcap; lra.
  - intros v' [Hx' _ Hu' Hcons']. cbn [x_keys u_keys constraints objective] in *.
    specialize (Hx' (1, 0) ltac:(by left)).
    specialize (Hu' (1, 0) ltac:(by left)). simpl in Hx', Hu'.
    apply Forall_cons in Hcons' as [Hcov Hcons'].
    apply Forall_cons in Hcons' as [Hfleet _].
    unfold satisfies in Hcov, Hfleet. cbn [c_sense c_rhs c_lhs] in Hcov, Hfleet.
    rewrite !eval_cons in *. fold cap in Hfleet.
    unfold val at 1. cbn [default from_option id].
    change (eval [] ?v) with 0%Q in *.
    assert (r * val v' (X 1 0) <= rcap)%Q as Hprod.
    { unfold rcap. rewrite !(Qmult_comm r).
      apply Qmult_le_compat_r; [lra|done]. }
    assert (Qmax 0 (5 - rcap) <= val v' (U 1 0))%Q as Hlub
      by (apply Q.max_lub; lra).
    lra.
Qed.




(** The rounding at work: 1 and 2^53 are floats, 2^53 + 1 is a tie that
    goes to the even significand, and 0.1 + 0.2 is the float after 0.3. *)
Example binary64_rounding :
  (Binary64.fl 1 == 1)%Q
  ∧ (Binary64.fl (inject_Z (2 ^ 53 + 1)) == inject_Z (2 ^ 53))%Q
  ∧ (Binary64.fl (inject_Z (2 ^ 53 + 3)) == inject_Z (2 ^ 53 + 4))%Q
  ∧ (Binary64.fl (- (1 # 3)) == - Binary64.fl (1 # 3))%Q
  ∧ (Binary64.add (Binary64.fl (1 # 10)) (Binary64.fl (2 # 10))
     == Binary64.fl (3 # 10) + (1 # 18014398509481984))%Q.
Proof. repeat split; by vm_compute. Qed.








(** ** Loading the demand *)

Lemma normalize_need (n : string) : n ∈ need → normalize n = n.
Proof.
  intros Hn. unfold need in Hn.
  repeat (apply elem_of_cons in Hn as [->|Hn]; [reflexivity|]).
  inversion Hn.
Qed.

(** The check of lines 15-17 fails at the first required name that no
    column carries once the names are normalised. *)
Lemma check_columns_first_missing (df_columns : list string) :
  check_columns df_columns
  = match first_missing df_columns with
    | Some n => Raise (ValueError_missing n df_columns)
    | None => Ok tt
    end.
Proof.
  unfold check_columns, first_missing.
  assert (∀ l, (∀ n, n ∈ l → n ∈ need) →
    List.find (λ n, negb (bool_decide (n ∈ map normalize df_columns))
                    && negb (bool_decide (n ∈ df_columns))) l
    = List.find (λ n, negb (bool_decide (n ∈ map normalize df_columns))) l) as Hfind.
  { induction l as [|n l IH]; intros Hl; simpl; [done|].
    rewrite IH by (intros; apply Hl; by right).
    destruct (bool_decide (n ∈ map normalize df_columns)) eqn:Hcols; simpl; [done|].
    destruct (bool_decide (n ∈ df_columns)) eqn:Hraw; simpl; [|done].
    apply bool_decide_eq_true in Hraw. apply bool_decide_eq_false in Hcols.
    exfalso. apply Hcols. apply elem_of_map. exists n. split; [|done].
    symmetry. apply normalize_need, Hl. by left. }
  by rewrite Hfind.
Qed.

Lemma positions_from_spec (i : nat) (n : string) (labels : list string) (p : nat) :
  p ∈ positions_from i n labels
  ↔ (i ≤ p)%nat ∧ labels !! (p - i)%nat = Some n.
Proof.
  revert i. induction labels as [|c labels IH]; intros i; simpl.
  - split; [by intros ?%elem_of_nil|by intros [_ ?]].
  - case_bool_decide as Hc; [subst c; rewrite elem_of_cons|]; rewrite IH.
    + split.
      * intros [->|[Hle Hl]].
        { split; [lia|]. by replace (i - i)%nat with 0%nat by lia. }
        { split; [lia|]. by replace (p - i)%nat with (S (p - S i)) by lia. }
      * intros [Hle Hl]. destruct (decide (p = i)) as [->|Hne]; [by left|right].
        split; [lia|]. by replace (p - i)%nat with (S (p - S i)) in Hl by lia.
    + split.
      * intros [Hle Hl]. split; [lia|].
        by replace (p - i)%nat with (S (p - S i)) by lia.
      * intros [Hle Hl]. destruct (decide (p = i)) as [->|Hne].
        { replace (i - i)%nat with 0%nat in Hl by lia. simpl in Hl. congruence. }
        split; [lia|]. by replace (p - i)%nat with (S (p - S i)) in Hl by lia.
Qed.

Lemma positions_spec (n : string) (labels : list string) (p : nat) :
  p ∈ positions n labels ↔ labels !! p = Some n.
Proof.
  unfold positions. rewrite positions_from_spec.
  replace (p - 0)%nat with p by lia. split; [tauto|]. split; [lia|done].
Qed.

Lemma positions_nil (n : string) (labels : list string) :
  positions n labels = [] ↔ n ∉ labels.
Proof.
  split.
  - intros Hnil Hin. apply list_elem_of_lookup in Hin as [p Hp].
    apply positions_spec in Hp. rewrite Hnil in Hp. inversion Hp.
  - intros Hn. destruct (positions n labels) as [|p ps] eqn:Hps; [done|].
    exfalso. apply Hn.
    assert (p ∈ positions n labels) as Hp by (rewrite Hps; by left).
    apply positions_spec in Hp. by apply list_elem_of_lookup_2 in Hp.
Qed.

Lemma positions_nth (n : string) (labels : list string) (p : nat) :
  p ∈ positions n labels → nth p labels EmptyString = n.
Proof.
  intros Hp. apply positions_spec in Hp. by apply nth_lookup_Some with (d := EmptyString) in Hp.
Qed.

Lemma select_positions_Raise (labels wanted : list string) (e : exn) :
  select_positions labels wanted = Raise e → ∃ n, e = KeyError_label n.
Proof.
  unfold select_positions.
  destruct (rmap _ wanted) as [ps|e'] eqn:Hps; simpl; [done|].
  intros [= ->]. apply rmap_Raise in Hps as (n & _ & Hn).
  destruct (positions n labels); [|done]. injection Hn as <-. by exists n.
Qed.

Lemma astype_Raise (conv : cell → option cell) (n : string)
    (labels : list string) (rows : list (list cell)) (e : exn) :
  astype conv n labels rows = Raise e → e = ValueError_cast n.
Proof.
  unfold astype. intros Hrows. apply rmap_Raise in Hrows as (row & _ & Hrow).
  destruct (astype_row conv n labels row); [done|]. by injection Hrow as <-.
Qed.

Lemma key_position_Raise (n : string) (labels : list string) (e : exn) :
  key_position n labels = Raise e →
  e = KeyError_label n ∨ e = ValueError_not_unique n.
Proof.
  unfold key_position. destruct (positions n labels) as [|p [|q ps]]; intros [= <-]; auto.
Qed.

(** Loading raises its own error exactly when a required name is carried by
    no column, for the first such name, with the names as found. *)
Lemma load_demand_missing_iff (py : Text) (df : Table) (n : string) (found : list string) :
  load_demand py df = Raise (ValueError_missing n found)
  ↔ first_missing (header df) = Some n ∧ found = header df.
Proof.
  unfold load_demand. rewrite check_columns_first_missing.
  destruct (first_missing (header df)) as [m|]; simpl.
  - split; [by intros [= -> ->]|by intros [[= ->] ->]].
  - split; [|by intros [? _]]. intros Hload. exfalso.
    destruct (select_positions _ need) as [ps|e] eqn:Hps; simpl in Hload.
    2: { apply select_positions_Raise in Hps as [n' ->]. done. }
    destruct (astype (to_int py) "pickup_community_area" _ _) as [rows1|e] eqn:H1;
      simpl in Hload.
    2: { apply astype_Raise in H1 as ->. done. }
    destruct (astype (to_int py) "hour" _ _) as [rows2|e] eqn:H2; simpl in Hload.
    2: { apply astype_Raise in H2 as ->. done. }
    destruct (astype (to_float py) "demand" _ _) as [rows3|e] eqn:H3; simpl in Hload.
    2: { apply astype_Raise in H3 as ->. done. }
    destruct (key_position "hour" _) as [ph|e] eqn:H4; simpl in Hload.
    2: { apply key_position_Raise in H4 as [-> | ->]; done. }
    destruct (key_position "pickup_community_area" _) as [pa|e] eqn:H5;
      simpl in Hload; [done|].
    apply key_position_Raise in H5 as [-> | ->]; done.
Qed.

Lemma load_demand_Ok_present (py : Text) (df : Table) (out : Table) :
  load_demand py df = Ok out → first_missing (header df) = None.
Proof.
  unfold load_demand. rewrite check_columns_first_missing.
  by destruct (first_missing (header df)).
Qed.

Lemma rmap_map_Ok {A B C} (f : B → result C) (g : A → B) (h : A → C) (l : list A) :
  (∀ x, x ∈ l → f (g x) = Ok (h x)) → rmap f (map g l) = Ok (map h l).
Proof.
  induction l as [|x l IH]; simpl; intros H; [done|].
  rewrite (H x) by (by left). simpl.
  rewrite IH by (intros; apply H; by right). done.
Qed.

Lemma astype_row_area (conv : cell → option cell) (c1 c2 c3 : cell) :
  astype_row conv "pickup_community_area" need [c1; c2; c3]
  = match conv c1 with Some y => Some [y; c2; c3] | None => None end.
Proof. reflexivity. Qed.

Lemma astype_row_hour (conv : cell → option cell) (c1 c2 c3 : cell) :
  astype_row conv "hour" need [c1; c2; c3]
  = match conv c2 with Some y => Some [c1; y; c3] | None => None end.
Proof.
  change (astype_row conv "hour" need [c1; c2; c3])
    with (match match conv c2 with
                | Some y => Some [y; c3]
                | None => None
                end with
          | Some ys => Some (c1 :: ys)
          | None => None
          end).
  by destruct (conv c2).
Qed.

Lemma astype_row_demand (conv : cell → option cell) (c1 c2 c3 : cell) :
  astype_row conv "demand" need [c1; c2; c3]
  = match conv c3 with Some y => Some [c1; c2; y] | None => None end.
Proof.
  change (astype_row conv "demand" need [c1; c2; c3])
    with (match match match conv c3 with
                      | Some y => Some [y]
                      | None => None
                      end with
                | Some ys => Some (c2 :: ys)
                | None => None
                end with
          | Some ys => Some (c1 :: ys)
          | None => None
          end).
  by destruct (conv c3).
Qed.

Lemma positions_singleton_elem (n : string) (labels : list string) (p : nat) :
  positions n labels = [p] → n ∈ labels ∧ nth p labels EmptyString = n.
Proof.
  intros Hp. assert (p ∈ positions n labels) as Hin by (rewrite Hp; by left).
  split; [|by apply positions_nth].
  apply positions_spec in Hin. by apply list_elem_of_lookup_2 in Hin.
Qed.

(** When each required name is carried by one column only and the cells of
    these columns convert, loading returns the three columns, typed, with
    the rows ordered by hour and then by zone. *)
Lemma load_demand_success (py : Text) (df : Table) (pa ph pd : nat) :
  positions "pickup_community_area" (map normalize (header df)) = [pa] →
  positions "hour" (map normalize (header df)) = [ph] →
  positions "demand" (map normalize (header df)) = [pd] →
  Forall (converts py pa ph pd) (body df) →
  load_demand py df
  = Ok (mkTable need
          (sort_stable (hour_area_leb 1 0) (map (typed py pa ph pd) (body df)))).
Proof.
  intros Hpa Hph Hpd Hconv.
  destruct (positions_singleton_elem _ _ _ Hpa) as [Ha Hna].
  destruct (positions_singleton_elem _ _ _ Hph) as [Hh Hnh].
  destruct (positions_singleton_elem _ _ _ Hpd) as [Hd Hnd].
  rewrite Forall_forall in Hconv.
  unfold load_demand. rewrite check_columns_first_missing.
  assert (first_missing (header df) = None) as ->.
  { unfold first_missing, need. cbn [List.find].
    by rewrite !bool_decide_eq_true_2. }
  cbn [rbind]. unfold select_positions, need at 1. cbn [rmap rbind].
  rewrite Hpa, Hph, Hpd. cbn [rbind concat app map].
  rewrite Hna, Hnh, Hnd. fold need.
  unfold astype.
  erewrite (rmap_map_Ok _ _
    (λ row, [default CNaN (to_int py (cell_at row pa)); cell_at row ph; cell_at row pd])).
  2: { intros row Hrow. rewrite astype_row_area.
       destruct (Hconv row Hrow) as ([a ->] & _ & _). done. }
  cbn [rbind].
  erewrite (rmap_map_Ok _ _
    (λ row, [default CNaN (to_int py (cell_at row pa));
             default CNaN (to_int py (cell_at row ph)); cell_at row pd])).
  2: { intros row Hrow. rewrite astype_row_hour.
       destruct (Hconv row Hrow) as (_ & [h ->] & _). done. }
  cbn [rbind].
  erewrite (rmap_map_Ok _ _ (typed py pa ph pd)).
  2: { intros row Hrow. rewrite astype_row_demand.
       destruct (Hconv row Hrow) as (_ & _ & [d Hd']). unfold typed.
       rewrite Hd'. done. }
  reflexivity.
Qed.

(** C9, as stated, fails: with the three names present, loading fails on an
    hour that is missing; and with two names absent, the error names one. *)
Lemma load_demand_fails_with_fields_present :
  first_missing (header Examples.raw_missing_hour) = None
  ∧ load_demand Examples.no_number Examples.raw_missing_hour
    = Raise (ValueError_cast "hour")
  ∧ load_demand Examples.no_number Examples.raw_demand_only
    = Raise (ValueError_missing "pickup_community_area" ["demand"%string]).
Proof. repeat split. Qed.

(** C9, amended: loading raises its validation error exactly when one of the
    three required names is carried by no column after lower-casing and
    trimming; the error names the first such name, in the order zone, hour,
    demand, and lists the column names as found. Loading succeeds only if the
    three names are present, and it does succeed when, in addition, each of
    them is carried by one column only and every cell of these columns
    converts to its type; the result then has the three columns, typed, with
    its rows ordered by hour and then by zone. *)
Theorem load_demand_validation (py : Text) (df : Table) :
  (∀ n found,
     load_demand py df = Raise (ValueError_missing n found)
     ↔ first_missing (header df) = Some n ∧ found = header df)
  ∧ (∀ out, load_demand py df = Ok out → first_missing (header df) = None)
  ∧ (∀ pa ph pd,
       positions "pickup_community_area" (map normalize (header df)) = [pa] →
       positions "hour" (map normalize (header df)) = [ph] →
       positions "demand" (map normalize (header df)) = [pd] →
       Forall (converts py pa ph pd) (body df) →
       ∃ rows,
         load_demand py df = Ok (mkTable need rows)
         ∧ rows ≡ₚ map (typed py pa ph pd) (body df)
         ∧ Sorted (before (hour_area_leb 1 0)) rows).
Proof.
  split; [apply load_demand_missing_iff|].
  split; [apply load_demand_Ok_present|].
  intros pa ph pd Hpa Hph Hpd Hconv. eexists.
  split; [by apply load_demand_success|].
  split; [apply sort_stable_Permutation|].
  apply sort_stable_Sorted. intros r1 r2. unfold hour_area_leb.
  rewrite !orb_true_iff, !andb_true_iff, !Z.ltb_lt, !Z.eqb_eq, !Z.leb_le. lia.
Qed.

Lemma load_demand_validation_witness :
  (load_demand Examples.no_number Examples.raw_demand_only
   = Raise (ValueError_missing "pickup_community_area" ["demand"%string]))
  ∧ first_missing (header Examples.raw_ok) = None
  ∧ ∃ rows,
      load_demand Examples.no_number Examples.raw_ok = Ok (mkTable need rows)
      ∧ rows ≡ₚ map (typed Examples.no_number 1 0 2) (body Examples.raw_ok)
      ∧ Sorted (before (hour_area_leb 1 0)) rows.
Proof.
  destruct (load_demand_validation Examples.no_number Examples.raw_demand_only) as (Hmissing & _ & _).
  destruct (load_demand_validation Examples.no_number Examples.raw_ok) as (_ & Hpresent & Hok).
  split; [apply Hmissing; split; reflexivity|].
  destruct (Hok 1%nat 0%nat 2%nat) as (rows & Hload & Hperm & Hsorted);
    [reflexivity..| |].
  - repeat constructor; unfold converts; simpl; eauto.
  - split; [by apply (Hpresent _ Hload)|]. by exists rows.
Defined.

(** * Further properties of the code *)

(** ** The runner and the analyser on tables that cover their product *)

(** X1: on a table that has a row for every pair of its zones and hours, and
    with two non-empty grids, [run_sensitivity] submits one problem per pair,
    rate by rate and, within a rate, fleet size by fleet size; it returns the
    nine summary columns and one record per pair, in ascending order of the
    rate and then of the fleet size. *)
Theorem sensitivity_sweep_on_covering_table (solver : Solver)
    (demand_df : list DemandRow) (F_grid : list Z) (r_grid : list Q)
    (int_vars : bool) (time_limit : option Z) (log : Log) :
  covers demand_df = true → F_grid ≠ [] → r_grid ≠ [] →
  ∃ sens_df,
    run_sensitivity solver demand_df F_grid r_grid int_vars time_limit log
    = (Ok sens_df,
       log ++ map (λ p, submitted demand_df p.2 p.1 int_vars None time_limit)
                (list_prod r_grid F_grid))
    ∧ columns sens_df = summary_keys
    ∧ length (records sens_df) = (length F_grid * length r_grid)%nat
    ∧ map (λ s, (s_r s, s_F s)) (records sens_df) ≡ₚ list_prod r_grid F_grid
    ∧ Sorted (λ s1 s2, (s_r s1 < s_r s2)%Q
                       ∨ ((s_r s1 == s_r s2)%Q ∧ s_F s1 ≤ s_F s2))
        (records sens_df).
Proof.
  intros Hc HF Hr.
  destruct (run_sensitivity_covers solver demand_df F_grid r_grid int_vars
              time_limit log Hc HF Hr) as (sens_df & Hrun & Hcols & Hlen & Hperm & Hsort).
  exists sens_df. repeat (split; [done|]).
  eapply Sorted_weaken; [|exact Hsort].
  intros s1 s2. apply r_F_leb_spec.
Qed.

Lemma sensitivity_sweep_on_covering_table_witness :
  ∃ sens_df,
    run_sensitivity (Examples.constant 3 1) Examples.table_2x2 [10; 5] [2%Q; 1%Q]
      true None []
    = (Ok sens_df,
       [] ++ map (λ p, submitted Examples.table_2x2 p.2 p.1 true None None)
               (list_prod [2%Q; 1%Q] [10; 5]))
    ∧ columns sens_df = summary_keys
    ∧ length (records sens_df) = (2 * 2)%nat
    ∧ map (λ s, (s_r s, s_F s)) (records sens_df) ≡ₚ list_prod [2%Q; 1%Q] [10; 5]
    ∧ Sorted (λ s1 s2, (s_r s1 < s_r s2)%Q
                       ∨ ((s_r s1 == s_r s2)%Q ∧ s_F s1 ≤ s_F s2))
        (records sens_df).
Proof.
  apply (sensitivity_sweep_on_covering_table (Examples.constant 3 1)
           Examples.table_2x2 [10; 5] [2%Q; 1%Q] true None []);
    [reflexivity|discriminate|discriminate].
Defined.

Lemma Forall_rounds {A R} (P : R → Prop) (rows_of : A → Log → list R)
    (calls_of : A → list SolverCall) (l : list A) :
  (∀ x log, x ∈ l → Forall P (rows_of x log)) →
  ∀ log, Forall P (rounds rows_of calls_of l log).
Proof.
  induction l as [|x l IH]; intros H log; simpl; [constructor|].
  apply Forall_app. split; [apply H; by left|].
  apply IH. intros; apply H; by right.
Qed.

Lemma Sorted_le_NoDup_lt (l : list Z) : Sorted Z.le l → NoDup l → Sorted Z.lt l.
Proof.
  induction 1 as [|x l Hl IH Hhd]; intros Hnd; [constructor|].
  apply NoDup_cons in Hnd as [Hx Hnd]. constructor; [auto|].
  destruct Hhd as [|y l' Hxy]; constructor.
  assert (x ≠ y) by (intros ->; apply Hx; by left). lia.
Qed.

(** The zones and the hours of a table, each in strictly ascending order. *)
Lemma areas_strictly_sorted (demand_df : list DemandRow) :
  Sorted Z.lt (areas demand_df).
Proof. apply Sorted_le_NoDup_lt; [apply sorted_Sorted|apply NoDup_sorted_unique]. Qed.

Lemma hours_strictly_sorted (demand_df : list DemandRow) :
  Sorted Z.lt (hours demand_df).
Proof. apply Sorted_le_NoDup_lt; [apply sorted_Sorted|apply NoDup_sorted_unique]. Qed.

(** X2: on a non-empty table that has a row for every pair of its zones and
    hours, [marginal_value_per_hour] submits the baseline problem and then
    one problem per hour, in ascending order of the hours; the schedule of
    the problem for hour [h] is [F + delta] at [h] and [F] at every other
    hour, whatever was solved before. It returns one row per hour, in that
    order, each with the increment and with the baseline's unmet total minus
    the unmet total of the solve for its hour. *)
Theorem marginal_value_on_covering_table (solver : Solver)
    (demand_df : list DemandRow) (F : Z) (r : Q) (delta : Z) (int_vars : bool)
    (time_limit : option Z) (log : Log) :
  covers demand_df = true → demand_df ≠ [] →
  ∃ mv base_unmet,
    marginal_value_per_hour solver demand_df F r delta int_vars time_limit log
    = (Ok mv,
       log ++ submitted demand_df F r int_vars None time_limit
              :: map (bumped_call demand_df F r delta int_vars time_limit)
                   (hours demand_df))
    ∧ base_unmet
      = s_objective_unmet
          (summary (outcome demand_df F r int_vars
                      (solver log (submitted demand_df F r int_vars None time_limit))))
    ∧ columns mv = marginal_keys
    ∧ map mv_hour (records mv) = hours demand_df
    ∧ Sorted Z.lt (hours demand_df)
    ∧ Forall (λ row, mv_deltaF_at_hour row = delta) (records mv)
    ∧ Forall (λ row, ∃ log_h,
        mv_unmet_reduction row
        = (base_unmet
           - s_objective_unmet
               (summary (outcome demand_df F r int_vars
                  (solver log_h (bumped_call demand_df F r delta int_vars
                                   time_limit (mv_hour row))))))%Q)
        (records mv)
    ∧ ∀ h h', h' ∈ hours demand_df →
        capacity F (Some (bumped_caps (hours demand_df) F delta h)) h'
        = if decide (h' = h) then F + delta else F.
Proof.
  intros Hc Hne.
  destruct (marginal_value_per_hour_covers solver demand_df F r delta int_vars
              time_limit log Hc Hne) as (Hrun & Hhours & Hdelta).
  eexists _, _. split; [exact Hrun|]. split; [reflexivity|].
  cbn [columns records]. split; [done|]. split; [exact Hhours|].
  split; [apply hours_strictly_sorted|]. split; [exact Hdelta|].
  split.
  - apply Forall_rounds. intros h log_h _. constructor; [|constructor].
    by exists log_h.
  - intros h h' Hh'. by apply bumped_caps_capacity.
Qed.

Lemma marginal_value_on_covering_table_witness :
  ∃ mv base_unmet,
    marginal_value_per_hour Examples.fill_to_capacity Examples.one_cell 1 2 1
      true None []
    = (Ok mv,
       [] ++ submitted Examples.one_cell 1 2 true None None
             :: map (bumped_call Examples.one_cell 1 2 1 true None)
                  (hours Examples.one_cell))
    ∧ base_unmet
      = s_objective_unmet
          (summary (outcome Examples.one_cell 1 2 true
                      (Examples.fill_to_capacity []
                         (submitted Examples.one_cell 1 2 true None None))))
    ∧ columns mv = marginal_keys
    ∧ map mv_hour (records mv) = hours Examples.one_cell.
Proof.
  destruct (marginal_value_on_covering_table Examples.fill_to_capacity
              Examples.one_cell 1 2 1 true None [] eq_refl ltac:(discriminate))
    as (mv & base_unmet & Hrun & Hbase & Hcols & Hhours & _).
  by exists mv, base_unmet.
Defined.

(** ** The summary of a solve *)

Lemma Qsum_map_le {A} (f g : A → Q) (l : list A) :
  (∀ x, x ∈ l → (f x <= g x)%Q) → (Qsum (map f l) <= Qsum (map g l))%Q.
Proof.
  induction l as [|x l IH]; intros H; simpl; [apply Qle_refl|].
  apply Qplus_le_compat; [apply H; by left|].
  apply IH. intros; apply H; by right.
Qed.

Lemma served_pct_bounds (sol : Solution) (rows : list AllocRow) (F : Z) (r : Q)
    (int_vars : bool) :
  let s := summarize sol rows F r int_vars in
  ((s_demand_total s == 0)%Q → s_served_pct s = 0%Q)
  ∧ ((s_served_total s <= s_demand_total s)%Q → (0 <= s_demand_total s)%Q →
     (s_served_pct s <= 1)%Q)
  ∧ ((0 <= s_served_total s)%Q → (0 <= s_demand_total s)%Q →
     (0 <= s_served_pct s)%Q).
Proof.
  cbn [summarize s_demand_total s_served_total s_served_pct].
  set (td := Qsum (map demand rows)). set (ts := Qsum (map served rows)).
  destruct (Qeq_bool td 0) eqn:Hz.
  - repeat split; intros; lra.
  - apply Qeq_bool_neq in Hz. split; [intros; done|].
    split; intros H1 H2.
    + apply Qle_shift_div_r; [|lra].
      destruct (Qlt_le_dec 0 td) as [|Hle]; [done|].
      exfalso. apply Hz. lra.
    + apply Qle_shift_div_l; [|lra].
      destruct (Qlt_le_dec 0 td) as [|Hle]; [done|].
      exfalso. apply Hz. lra.
Qed.

(** X3: the summary of a returned solve echoes [F], [r], [int_vars] and the
    solver's status and runtime; its served total never exceeds its demand
    total; its served fraction is 0 when the demand total is zero (no
    division is made), is at most 1 when the demand total is not negative,
    and is not negative when neither total is. *)
Theorem summary_of_a_solve (solver : Solver) (demand_df : list DemandRow)
    (F : Z) (r : Q) (int_vars : bool) (hour_caps : option (gmap Z Z))
    (time_limit : option Z) (log log' : Log) (res : Allocation) :
  solve_allocation solver demand_df F r int_vars hour_caps time_limit log
  = (Ok res, log') →
  let s := summary res in
  (∃ c, log' = log ++ [c] ∧ s_status s = status (solver log c)
        ∧ s_runtime_sec s = runtime (solver log c))
  ∧ s_F s = F ∧ s_r s = r ∧ s_int_vars s = int_vars
  ∧ s_demand_total s = Qsum (map demand (allocations res))
  ∧ s_served_total s = Qsum (map served (allocations res))
  ∧ s_objective_unmet s = Qsum (map unmet (allocations res))
  ∧ (s_served_total s <= s_demand_total s)%Q
  ∧ ((s_demand_total s == 0)%Q → s_served_pct s = 0%Q)
  ∧ ((0 <= s_demand_total s)%Q → (s_served_pct s <= 1)%Q)
  ∧ ((0 <= s_served_total s)%Q → (0 <= s_demand_total s)%Q →
     (0 <= s_served_pct s)%Q).
Proof.
  intros Hrun. apply solve_allocation_inv in Hrun as (p & Hp & -> & ->).
  cbv zeta. cbn [summary allocations].
  set (sol := solver log _).
  set (rows := map (extracted r (demand_dict demand_df) sol) _).
  destruct (served_pct_bounds sol rows F r int_vars) as (Hzero & Hone & Hpos).
  assert (s_served_total (summarize sol rows F r int_vars)
          <= s_demand_total (summarize sol rows F r int_vars))%Q as Hle.
  { cbn [summarize s_served_total s_demand_total].
    apply Qsum_map_le. intros row Hrow. unfold rows in Hrow.
    apply elem_of_map in Hrow as (k & -> & _). apply Q.le_min_l. }
  split; [by eexists|]. do 6 (split; [reflexivity|]).
  split; [exact Hle|]. split; [exact Hzero|]. split; [|exact Hpos].
  intros Hd. by apply Hone.
Qed.

Lemma summary_of_a_solve_witness :
  ∃ res log',
    solve_allocation (Examples.constant 3 1) Examples.table_2x2 10 2 true None None []
    = (Ok res, log')
    ∧ (s_served_total (summary res) <= s_demand_total (summary res))%Q
    ∧ (s_served_pct (summary res) <= 1)%Q.
Proof.
  eexists _, _. split; [reflexivity|].
  destruct (summary_of_a_solve (Examples.constant 3 1) Examples.table_2x2 10 2
              true None None [] _ _ eq_refl)
    as (_ & _ & _ & _ & _ & _ & _ & Hle & _ & Hone & _).
  split; [exact Hle|]. apply Hone. vm_compute. discriminate.
Defined.

(** ** Pairs of a zone and an hour *)

Lemma NoDup_map_pair {A B} (a : A) (k : list B) : NoDup k → NoDup (map (pair a) k).
Proof.
  induction 1 as [|y k Hy Hk IH]; simpl; constructor; [|done].
  rewrite elem_of_map. intros (y' & [= ->] & Hin). done.
Qed.

Lemma NoDup_list_prod {A B} (l : list A) (k : list B) :
  NoDup l → NoDup k → NoDup (list_prod l k).
Proof.
  intros Hl Hk. induction Hl as [|a l Ha Hl IH]; simpl; [constructor|].
  apply NoDup_app. split; [by apply NoDup_map_pair|]. split; [|done].
  intros p Hp Hp'. apply elem_of_map in Hp as (y & -> & _).
  apply elem_of_list_prod in Hp' as [Hin _]. done.
Qed.

Lemma NoDup_keys (demand_df : list DemandRow) :
  NoDup (list_prod (areas demand_df) (hours demand_df)).
Proof. apply NoDup_list_prod; apply NoDup_sorted_unique. Qed.

(** ** What a feasible answer means for the table *)

Lemma Qsum_app (l k : list Q) : (Qsum (l ++ k) == Qsum l + Qsum k)%Q.
Proof. induction l as [|x l IH]; simpl; [ring|]. rewrite IH. ring. Qed.

(** The assignments of one zone at the hour [h]. *)
Lemma assigned_in_hour_zone (r : Q) (d : gmap (Z * Z) Q) (sol : Solution)
    (a h : Z) (H : list Z) :
  NoDup H → h ∈ H →
  (Qsum (map x_taxis (filter (λ row, hour row = h)
                        (map (extracted r d sol) (map (pair a) H))))
   == val (value sol) (X a h))%Q.
Proof.
  induction 1 as [|h' H Hh' Hnd IH]; intros Hin; [by apply elem_of_nil in Hin|].
  simpl map. rewrite filter_cons. cbn [hour extracted snd].
  destruct (decide (h' = h)) as [->|Hne].
  - simpl. assert (filter (λ row, hour row = h)
                     (map (extracted r d sol) (map (pair a) H)) = []) as ->.
    { clear IH Hin Hnd. induction H as [|h'' H IH]; [done|].
      simpl map. rewrite filter_cons. cbn [hour extracted snd].
      rewrite decide_False by (intros ->; apply Hh'; by left).
      apply IH. intros ?. apply Hh'. by right. }
    unfold val. simpl. ring.
  - apply IH. apply elem_of_cons in Hin as [->|?]; done.
Qed.

(** The assignments of all the zones at the hour [h]. *)
Lemma assigned_in_hour (r : Q) (d : gmap (Z * Z) Q) (sol : Solution)
    (h : Z) (A H : list Z) :
  NoDup H → h ∈ H →
  (Qsum (map x_taxis (filter (λ row, hour row = h)
                        (map (extracted r d sol) (list_prod A H))))
   == eval (map (λ a, (1%Q, X a h)) A) (value sol))%Q.
Proof.
  intros Hnd Hin. induction A as [|a A IH]; [reflexivity|].
  simpl list_prod.
  rewrite map_app, filter_app, map_app, Qsum_app, IH.
  rewrite assigned_in_hour_zone by done.
  cbn [map]. rewrite eval_cons. ring.
Qed.

Lemma served_covers_with_slack (dv rx uv : Q) :
  (0 <= uv)%Q → (dv <= rx + uv)%Q → (dv <= Qmin dv rx + uv)%Q.
Proof.
  intros Hu Hcov. destruct (Qlt_le_dec rx dv) as [Hlt|Hle].
  - rewrite Q.min_r by lra. done.
  - rewrite Q.min_l by lra. lra.
Qed.

(** X5: when the valuation that the solver returns satisfies the submitted
    problem, the returned table keeps the constraints: in every row the
    assignment and the unmet slack are not negative and
    [r * x_taxis + unmet] and [served + unmet] reach the demand; the
    assignments are integers when [int_vars] is set; and at every hour the
    assignments of all zones sum to at most the capacity of that hour. *)
Theorem feasible_answer_keeps_constraints (solver : Solver)
    (demand_df : list DemandRow) (F : Z) (r : Q) (int_vars : bool)
    (hour_caps : option (gmap Z Z)) (time_limit : option Z) (log log' : Log)
    (res : Allocation) :
  solve_allocation solver demand_df F r int_vars hour_caps time_limit log
  = (Ok res, log') →
  (∀ p, model_of demand_df F r int_vars hour_caps = Ok p →
        feasible p (value (solver log (mkSolverCall p time_limit)))) →
  Forall (λ row, (0 <= x_taxis row)%Q ∧ (0 <= unmet row)%Q
                 ∧ (demand row <= r * x_taxis row + unmet row)%Q
                 ∧ (demand row <= served row + unmet row)%Q
                 ∧ (int_vars = true → integral (x_taxis row)))
    (allocations res)
  ∧ ∀ h, h ∈ hours demand_df →
      (Qsum (map x_taxis (filter (λ row, hour row = h) (allocations res)))
       <= inject_Z (capacity F hour_caps h))%Q.
Proof.
  intros Hrun Hfeas. apply solve_allocation_inv in Hrun as (p & Hp & -> & ->).
  specialize (Hfeas p Hp). apply model_of_Ok_written in Hp as [_ ->].
  set (sol := solver log _) in *.
  destruct Hfeas as [Hx Hint Hu Hcons].
  cbn [written x_keys u_keys x_cat constraints] in Hx, Hint, Hu, Hcons.
  apply Forall_app in Hcons as [Hcov Hfleet].
  rewrite Forall_forall in Hcov, Hfleet.
  cbn [allocations]. split.
  - apply Forall_forall. intros row Hrow.
    apply elem_of_map in Hrow as (k & -> & Hk).
    specialize (Hcov _ (proj2 (elem_of_map _ _ _) (ex_intro _ k (conj eq_refl Hk)))).
    unfold satisfies in Hcov. cbn [c_sense c_rhs c_lhs] in Hcov.
    rewrite !eval_cons in Hcov. change (eval [] ?w) with 0%Q in Hcov.
    specialize (Hx k Hk). specialize (Hu k Hk).
    unfold extracted. cbn [x_taxis unmet demand served].
    unfold val in Hx, Hu, Hcov.
    split; [done|]. split; [done|]. split; [lra|].
    split; [apply served_covers_with_slack; [done|lra]|].
    intros ->. by apply (Hint eq_refl k).
  - intros h Hh.
    rewrite assigned_in_hour by (done || apply NoDup_sorted_unique).
    specialize (Hfleet _ (proj2 (elem_of_map _ _ _) (ex_intro _ h (conj eq_refl Hh)))).
    exact Hfleet.
Qed.

Lemma feasible_answer_keeps_constraints_witness :
  ∃ res log',
    solve_allocation Examples.fill_to_capacity Examples.one_cell 1 2 true None None []
    = (Ok res, log')
    ∧ Forall (λ row, (0 <= x_taxis row)%Q ∧ (0 <= unmet row)%Q
                     ∧ (demand row <= 2 * x_taxis row + unmet row)%Q
                     ∧ (demand row <= served row + unmet row)%Q
                     ∧ (true = true → integral (x_taxis row)))
        (allocations res)
    ∧ (Qsum (map x_taxis (filter (λ row, hour row = 0%Z) (allocations res)))
       <= inject_Z (capacity 1 None 0))%Q.
Proof.
  eexists _, _. split; [reflexivity|].
  destruct (feasible_answer_keeps_constraints Examples.fill_to_capacity
              Examples.one_cell 1 2 true None None [] _ _ eq_refl)
    as (Hrows & Hcap).
  - intros p Hp. rewrite model_of_covers in Hp by reflexivity.
    injection Hp as <-.
    apply (fill_to_capacity_exact 1 2 true None None []); [lra|simpl; lia].
  - split; [exact Hrows|]. apply Hcap. compute_done.
Defined.

(** ** The layout of the table and the demand it carries *)

Lemma elem_of_areas (demand_df : list DemandRow) (a : Z) :
  a ∈ areas demand_df ↔ ∃ row, row ∈ demand_df ∧ area_of row = a.
Proof.
  unfold areas. rewrite elem_of_sorted, elem_of_unique, elem_of_map.
  split; intros (row & ? & ?); exists row; done.
Qed.

Lemma elem_of_hours (demand_df : list DemandRow) (h : Z) :
  h ∈ hours demand_df ↔ ∃ row, row ∈ demand_df ∧ hour_of row = h.
Proof.
  unfold hours. rewrite elem_of_sorted, elem_of_unique, elem_of_map.
  split; intros (row & ? & ?); exists row; done.
Qed.

(** X6: the table that [solve_allocation] returns has one row for each pair
    of a zone and an hour, zone by zone and, within a zone, hour by hour;
    the zones are those of the demand table, each once, in strictly
    ascending order, and so are the hours; no pair occurs twice. *)
Theorem allocation_table_layout (solver : Solver) (demand_df : list DemandRow)
    (F : Z) (r : Q) (int_vars : bool) (hour_caps : option (gmap Z Z))
    (time_limit : option Z) (log log' : Log) (res : Allocation) :
  solve_allocation solver demand_df F r int_vars hour_caps time_limit log
  = (Ok res, log') →
  let A := areas demand_df in
  let H := hours demand_df in
  map (λ row, (pickup_community_area row, hour row)) (allocations res)
  = list_prod A H
  ∧ length (allocations res) = (length A * length H)%nat
  ∧ NoDup (map (λ row, (pickup_community_area row, hour row)) (allocations res))
  ∧ Sorted Z.lt A ∧ Sorted Z.lt H
  ∧ (∀ a, a ∈ A ↔ ∃ row, row ∈ demand_df ∧ area_of row = a)
  ∧ (∀ h, h ∈ H ↔ ∃ row, row ∈ demand_df ∧ hour_of row = h).
Proof.
  intros Hrun A H. apply solve_allocation_inv in Hrun as (p & Hp & -> & ->).
  cbn [allocations]. rewrite extracted_keys.
  split; [done|]. split; [by rewrite length_map, length_prod|].
  split; [apply NoDup_keys|].
  split; [apply areas_strictly_sorted|]. split; [apply hours_strictly_sorted|].
  split; [apply elem_of_areas|apply elem_of_hours].
Qed.

Lemma allocation_table_layout_witness :
  ∃ res log',
    solve_allocation Examples.silent
      ((2, 1, 12%Q) :: (1, 1, 7%Q) :: Examples.table_2x2) 10 2 true None None []
    = (Ok res, log')
    ∧ map (λ row, (pickup_community_area row, hour row)) (allocations res)
      = [(1, 0); (1, 1); (2, 0); (2, 1)].
Proof.
  eexists _, _. split; [reflexivity|].
  by destruct (allocation_table_layout Examples.silent
                 ((2, 1, 12%Q) :: (1, 1, 7%Q) :: Examples.table_2x2) 10 2 true
                 None None [] _ _ eq_refl) as (-> & _).
Defined.

Lemma filter_key_NoDup {A K} `{EqDecision K} (key : A → K) (l : list A) (x : A) :
  NoDup (map key l) → x ∈ l → filter (λ y, key y = key x) l = [x].
Proof.
  induction l as [|y l IH]; simpl; intros Hnd Hx; [by apply elem_of_nil in Hx|].
  apply NoDup_cons in Hnd as [Hy Hnd]. rewrite filter_cons.
  apply elem_of_cons in Hx as [->|Hx].
  - rewrite decide_True by done. f_equal.
    clear IH Hnd. induction l as [|z l IH]; [done|].
    rewrite filter_cons, decide_False.
    + apply IH. intros ?. apply Hy. by right.
    + intros Heq. apply Hy. rewrite <- Heq. by left.
  - rewrite decide_False; [by apply IH|].
    intros Heq. apply Hy. rewrite Heq. apply elem_of_map. by exists x.
Qed.

(** X7: every row of the returned table carries the demand of the last row
    of the demand table for its pair, so rows that repeat a pair are not
    added up; when no pair is repeated, the demand column of the returned
    table holds the demands of the table, each once, in the order of the
    pairs. *)
Theorem demand_of_the_last_row (solver : Solver) (demand_df : list DemandRow)
    (F : Z) (r : Q) (int_vars : bool) (hour_caps : option (gmap Z Z))
    (time_limit : option Z) (log log' : Log) (res : Allocation) :
  solve_allocation solver demand_df F r int_vars hour_caps time_limit log
  = (Ok res, log') →
  Forall (λ row,
      ∃ dr, last (filter (λ dr, (area_of dr, hour_of dr)
                                = (pickup_community_area row, hour row))
                    demand_df) = Some dr
            ∧ demand row = demand_of dr) (allocations res)
  ∧ (NoDup (map (λ dr, (area_of dr, hour_of dr)) demand_df) →
     map demand (allocations res) ≡ₚ map demand_of demand_df).
Proof.
  intros Hrun. apply solve_allocation_inv in Hrun as (p & Hp & -> & ->).
  apply model_of_Ok_covers in Hp. rewrite covers_spec in Hp.
  cbn [allocations summary]. split.
  - apply Forall_forall. intros row Hrow.
    apply elem_of_map in Hrow as (k & -> & Hk).
    specialize (Hp k Hk). unfold demand_dict in Hp.
    rewrite (lookup_foldl_insert (λ dr, (area_of dr, hour_of dr)) demand_of) in Hp.
    cbn [extracted pickup_community_area hour demand].
    replace (k.1, k.2) with k by (by destruct k).
    unfold get, demand_dict.
    rewrite (lookup_foldl_insert (λ dr, (area_of dr, hour_of dr)) demand_of).
    destruct (last _) as [dr|]; [by exists dr|].
    rewrite lookup_empty in Hp. by destruct Hp.
  - intros Hnd.
    rewrite map_map. cbn [extracted demand].
    set (key := λ dr : DemandRow, (area_of dr, hour_of dr)) in *.
    assert (list_prod (areas demand_df) (hours demand_df) ≡ₚ map key demand_df)
      as Hperm.
    { apply NoDup_Permutation; [apply NoDup_keys|done|]. intros k. split.
      - intros Hk. by apply demand_dict_is_Some, Hp.
      - intros Hk. apply elem_of_map in Hk as (dr & -> & Hdr).
        apply elem_of_list_prod. split; simpl.
        + apply elem_of_areas. by exists dr.
        + apply elem_of_hours. by exists dr. }
    rewrite (Permutation_map (λ k, get (demand_dict demand_df) k 0%Q) Hperm).
    rewrite map_map.
    assert (map (λ dr, get (demand_dict demand_df) (key dr) 0%Q) demand_df
            = map demand_of demand_df) as ->; [|reflexivity].
    apply map_ext_in. intros dr Hdr. apply list_elem_of_In in Hdr.
    unfold get, demand_dict. rewrite (lookup_foldl_insert key demand_of).
    by rewrite (filter_key_NoDup key demand_df dr Hnd Hdr).
Qed.

Lemma demand_of_the_last_row_witness :
  ∃ res log',
    solve_allocation Examples.silent
      (Examples.table_2x2 ++ [(1, 1, 7%Q)]) 10 2 true None None []
    = (Ok res, log')
    ∧ map demand (allocations res) = [10%Q; 7%Q; 8%Q; 12%Q]
    ∧ Forall (λ row,
        ∃ dr, last (filter (λ dr, (area_of dr, hour_of dr)
                                  = (pickup_community_area row, hour row))
                      (Examples.table_2x2 ++ [(1, 1, 7%Q)])) = Some dr
              ∧ demand row = demand_of dr) (allocations res).
Proof.
  eexists _, _. split; [reflexivity|]. split; [reflexivity|].
  apply (demand_of_the_last_row Examples.silent
           (Examples.table_2x2 ++ [(1, 1, 7%Q)]) 10 2 true None None [] _ _ eq_refl).
Defined.

(** ** Loading twice *)

Lemma to_int_fixed (py : Text) (c c' : cell) :
  to_int py c = Some c' → to_int py c' = Some c'.
Proof.
  destruct c as [z|q|b| |s]; simpl; intros H; try (by simplify_eq).
  destruct (int_of_text py s); by simplify_eq.
Qed.

Lemma to_float_fixed (py : Text) (c c' : cell) :
  to_float py c = Some c' → to_float py c' = Some c'.
Proof.
  destruct c as [z|q|b| |s]; simpl; intros H; try (by simplify_eq).
  destruct (float_of_text py s); by simplify_eq.
Qed.

(** A typed row is its own typed row. *)
Lemma typed_fixed (py : Text) (pa ph pd : nat) (row : list cell) :
  converts py pa ph pd row →
  converts py 0 1 2 (typed py pa ph pd row)
  ∧ typed py 0 1 2 (typed py pa ph pd row) = typed py pa ph pd row.
Proof.
  intros ([a Ha] & [h Hh] & [d Hd]). unfold converts, typed.
  rewrite Ha, Hh, Hd. unfold cell_at. simpl.
  rewrite (to_int_fixed _ _ _ Ha), (to_int_fixed _ _ _ Hh), (to_float_fixed _ _ _ Hd).
  by repeat split.
Qed.

Lemma hour_area_leb_total (ph pa : nat) (r1 r2 : list cell) :
  hour_area_leb ph pa r1 r2 = true ∨ hour_area_leb ph pa r2 r1 = true.
Proof.
  unfold hour_area_leb.
  rewrite !orb_true_iff, !andb_true_iff, !Z.ltb_lt, !Z.eqb_eq, !Z.leb_le. lia.
Qed.

(** X8: when each of the three required names is carried by one column only
    and every cell of these columns converts, [load_demand] succeeds, and
    loading its result again returns the same table: the names, the types
    and the order of a loaded table are left as they are. *)
Theorem load_demand_twice (py : Text) (df : Table) (pa ph pd : nat) :
  positions "pickup_community_area" (map normalize (header df)) = [pa] →
  positions "hour" (map normalize (header df)) = [ph] →
  positions "demand" (map normalize (header df)) = [pd] →
  Forall (converts py pa ph pd) (body df) →
  ∃ out, load_demand py df = Ok out
         ∧ header out = need
         ∧ length (body out) = length (body df)
         ∧ load_demand py out = Ok out.
Proof.
  intros Hpa Hph Hpd Hconv.
  rewrite (load_demand_success py df pa ph pd Hpa Hph Hpd Hconv).
  eexists. split; [reflexivity|]. split; [reflexivity|].
  cbn [body]. split; [by rewrite sort_stable_length, length_map|].
  set (rows := sort_stable _ _).
  assert (Forall (λ row, converts py 0 1 2 row ∧ typed py 0 1 2 row = row) rows)
    as Hrows.
  { unfold rows. rewrite sort_stable_Permutation.
    apply Forall_forall. intros row Hrow.
    apply elem_of_map in Hrow as (row0 & -> & Hrow0).
    apply typed_fixed. rewrite Forall_forall in Hconv. by apply Hconv. }
  rewrite (load_demand_success py (mkTable need rows) 0 1 2);
    [|reflexivity..|].
  - cbn [body]. do 2 f_equal.
    assert (map (typed py 0 1 2) rows = rows) as ->.
    { clear -Hrows. induction Hrows as [|row rows [_ Hrow] _ IH]; simpl; [done|].
      by rewrite Hrow, IH. }
    apply sort_stable_id. unfold rows.
    apply sort_stable_Sorted, hour_area_leb_total.
  - cbn [body]. eapply Forall_impl; [exact Hrows|]. by intros row [? _].
Qed.

Lemma load_demand_twice_witness :
  ∃ out, load_demand Examples.no_number Examples.raw_ok = Ok out
         ∧ header out = need
         ∧ length (body out) = length (body Examples.raw_ok)
         ∧ load_demand Examples.no_number out = Ok out.
Proof.
  apply (load_demand_twice Examples.no_number Examples.raw_ok 1 0 2);
    [reflexivity..|].
  repeat constructor; unfold converts; simpl; eauto.
Defined.

(** ** Column names up to case and padding *)

Lemma is_space_lower_ascii (c : ascii) : is_space (lower_ascii c) = is_space c.
Proof. by destruct c as [[] [] [] [] [] [] [] []]. Qed.

Lemma lower_ascii_idemp (c : ascii) : lower_ascii (lower_ascii c) = lower_ascii c.
Proof. by destruct c as [[] [] [] [] [] [] [] []]. Qed.

Lemma lower_idemp (s : string) : lower (lower s) = lower s.
Proof. induction s as [|c s IH]; simpl; [done|]. by rewrite lower_ascii_idemp, IH. Qed.

Lemma lower_app (s t : string) : lower (s +:+ t) = lower s +:+ lower t.
Proof. induction s as [|c s IH]; simpl; [done|]. by rewrite IH. Qed.

Lemma blank_lower (s : string) : blank (lower s) = blank s.
Proof. induction s as [|c s IH]; simpl; [done|]. by rewrite is_space_lower_ascii, IH. Qed.

Lemma lower_lstrip (s : string) : lower (lstrip s) = lstrip (lower s).
Proof.
  induction s as [|c s IH]; simpl; [done|].
  rewrite is_space_lower_ascii. by destruct (is_space c).
Qed.

Lemma lower_rstrip (s : string) : lower (rstrip s) = rstrip (lower s).
Proof.
  induction s as [|c s IH]; simpl; [done|].
  rewrite <- IH, is_space_lower_ascii.
  destruct (rstrip s); simpl; [by destruct (is_space c)|done].
Qed.

Lemma lstrip_blank (s : string) : blank s = true → lstrip s = EmptyString.
Proof.
  induction s as [|c s IH]; simpl; [done|].
  intros [Hc Hs]%andb_true_iff. rewrite Hc. by apply IH.
Qed.

Lemma rstrip_blank (s : string) : blank s = true → rstrip s = EmptyString.
Proof.
  induction s as [|c s IH]; simpl; [done|].
  intros [Hc Hs]%andb_true_iff. by rewrite IH, Hc.
Qed.

Lemma lstrip_app_blank_l (l s : string) : blank l = true → lstrip (l +:+ s) = lstrip s.
Proof.
  induction l as [|c l IH]; simpl; [done|].
  intros [Hc Hl]%andb_true_iff. rewrite Hc. by apply IH.
Qed.

Lemma rstrip_app_blank_r (s r : string) : blank r = true → rstrip (s +:+ r) = rstrip s.
Proof.
  intros Hr. induction s as [|c s IH]; simpl; [by apply rstrip_blank|].
  by rewrite IH.
Qed.

Lemma lstrip_app_r (s r : string) :
  blank r = true →
  rstrip (lstrip (s +:+ r)) = rstrip (lstrip s).
Proof.
  intros Hr. induction s as [|c s IH]; simpl.
  - by rewrite lstrip_blank, rstrip_blank.
  - destruct (is_space c); [done|].
    change (String c (s +:+ r)) with (String c s +:+ r).
    by apply rstrip_app_blank_r.
Qed.

(** Padding a name with whitespace does not change what it is read as. *)
Lemma strip_pad (l s r : string) :
  blank l = true → blank r = true → strip (l +:+ s +:+ r) = strip s.
Proof.
  intros Hl Hr. unfold strip.
  rewrite lstrip_app_blank_l by done. by apply lstrip_app_r.
Qed.

Lemma lstrip_starts_with_text (s : string) : starts_with_text (lstrip s).
Proof.
  induction s as [|c s IH]; simpl; [done|].
  destruct (is_space c) eqn:Hc; [done|]. simpl. done.
Qed.

Lemma rstrip_starts_with_text (s : string) :
  starts_with_text s → starts_with_text (rstrip s).
Proof.
  destruct s as [|c s]; simpl; [done|]. intros Hc.
  destruct (rstrip s); simpl; [by rewrite Hc|done].
Qed.

Lemma lstrip_id (s : string) : starts_with_text s → lstrip s = s.
Proof. destruct s as [|c s]; simpl; [done|]. by intros ->. Qed.

Lemma rstrip_idemp (s : string) : rstrip (rstrip s) = rstrip s.
Proof.
  induction s as [|c s IH]; simpl; [done|].
  destruct (rstrip s) as [|c' t] eqn:Ht.
  - destruct (is_space c) eqn:Hc; simpl; [done|]. by rewrite Hc.
  - simpl in IH |- *. by rewrite IH.
Qed.

Lemma strip_idemp (s : string) : strip (strip s) = strip s.
Proof.
  unfold strip.
  rewrite (lstrip_id (rstrip (lstrip s)))
    by apply rstrip_starts_with_text, lstrip_starts_with_text.
  apply rstrip_idemp.
Qed.

Lemma normalize_idemp (s : string) : normalize (normalize s) = normalize s.
Proof.
  unfold normalize, strip.
  rewrite lower_rstrip, lower_lstrip, lower_idemp.
  apply strip_idemp.
Qed.

Lemma normalize_pad (l s r : string) :
  blank l = true → blank r = true → normalize (l +:+ s +:+ r) = normalize s.
Proof.
  intros Hl Hr. unfold normalize. rewrite !lower_app.
  apply strip_pad; by rewrite blank_lower.
Qed.

(** X9: [load_demand] reads the column names up to ASCII case and to
    whitespace around them. Two frames with the same cells whose names agree
    once lower-cased and trimmed load alike: a success is the same table, and
    a missing name is the same name (reported with the names as found).
    Padding a name with whitespace, lower-casing it, or normalising it twice
    does not change what it is read as. *)
Theorem load_demand_up_to_case_and_padding (py : Text)
    (names names' : list string) (rows : list (list cell)) :
  Forall2 (λ c c', normalize c = normalize c') names names' →
  (∀ out, load_demand py (mkTable names rows) = Ok out →
          load_demand py (mkTable names' rows) = Ok out)
  ∧ (∀ n, first_missing names = Some n →
          load_demand py (mkTable names' rows) = Raise (ValueError_missing n names'))
  ∧ (∀ l s r, blank l = true → blank r = true →
              normalize (l +:+ s +:+ r) = normalize s)
  ∧ (∀ s, normalize (lower s) = normalize s)
  ∧ (∀ s, normalize (normalize s) = normalize s).
Proof.
  intros Hnames.
  assert (map normalize names = map normalize names') as Hmap.
  { induction Hnames as [|c c' names names' Hc _ IH]; simpl; [done|].
    by rewrite Hc, IH. }
  assert (first_missing names' = first_missing names) as Hfirst
    by (unfold first_missing; by rewrite Hmap).
  split; [|split; [|split; [|split]]].
  - intros out. unfold load_demand. rewrite !check_columns_first_missing.
    cbn [header body]. rewrite Hfirst, Hmap.
    by destruct (first_missing names).
  - intros n Hn. apply load_demand_missing_iff. cbn [header].
    by rewrite Hfirst.
  - apply normalize_pad.
  - intros s. unfold normalize. by rewrite lower_idemp.
  - apply normalize_idemp.
Qed.

Lemma load_demand_up_to_case_and_padding_witness :
  ∃ out,
    load_demand Examples.no_number Examples.raw_ok = Ok out
    ∧ load_demand Examples.no_number
        (mkTable ["hour"; "Pickup_Community_Area"; "  DEMAND"; "note"]
           (body Examples.raw_ok)) = Ok out.
Proof.
  eexists. split; [reflexivity|].
  apply (load_demand_up_to_case_and_padding Examples.no_number
           (header Examples.raw_ok)
           ["hour"; "Pickup_Community_Area"; "  DEMAND"; "note"]
           (body Examples.raw_ok)); [|reflexivity].
  repeat constructor.
Defined.

(** ** optimize.py beside [solve_allocation] *)

Lemma py_round_near (q : Q) :
  (inject_Z (Optimize.py_round q) - (1 # 2) <= q)%Q
  ∧ (q <= inject_Z (Optimize.py_round q) + (1 # 2))%Q.
Proof.
  unfold Optimize.py_round.
  pose proof (Qfloor_le q) as Hlo. pose proof (Qlt_floor q) as Hhi.
  rewrite inject_Z_plus in Hhi. change (inject_Z 1) with 1%Q in Hhi.
  set (n := Qfloor q) in *.
  destruct (q - inject_Z n ?= 1 # 2)%Q eqn:Hcmp.
  - rewrite <- Qeq_alt in Hcmp.
    destruct (Z.even n); rewrite ?inject_Z_plus; change (inject_Z 1) with 1%Q; lra.
  - rewrite <- Qlt_alt in Hcmp. lra.
  - rewrite <- Qgt_alt in Hcmp. rewrite inject_Z_plus. change (inject_Z 1) with 1%Q. lra.
Qed.

Lemma py_round_integer (z : Z) : Optimize.py_round (inject_Z z) = z.
Proof.
  unfold Optimize.py_round. rewrite Qfloor_Z.
  assert ((inject_Z z - inject_Z z ?= 1 # 2)%Q = Lt) as ->; [|done].
  rewrite <- Qlt_alt. generalize (inject_Z z). intros x. lra.
Qed.

Lemma Forall2_map_same {A B C} (R : B → C → Prop) (f : A → B) (g : A → C)
    (l : list A) :
  (∀ x, x ∈ l → R (f x) (g x)) → Forall2 R (map f l) (map g l).
Proof.
  induction l as [|x l IH]; intros H; simpl; constructor.
  - apply H. left.
  - apply IH. intros y Hy. apply H. by right.
Qed.

(** Two problems with the same rows have the same valuations that fit. *)
Lemma same_rows_feasible (m p : LpProblem) (v : Var → option Q) :
  x_cat m = x_cat p → x_keys m = x_keys p → u_keys m = u_keys p →
  Forall2 (λ cm cp, c_lhs cm = c_lhs cp ∧ c_sense cm = c_sense cp
                    ∧ c_rhs cm = c_rhs cp) (constraints m) (constraints p) →
  feasible m v → feasible p v.
Proof.
  intros Hcat Hx Hu Hrows [Hxl Hint Hul Hcons].
  constructor; rewrite <- ?Hcat, <- ?Hx, <- ?Hu; [done..|].
  clear -Hrows Hcons. induction Hrows as [|cm cp cms cps (Hl & Hs & Hr) _ IH];
    [constructor|].
  inversion Hcons as [|? ? Hc Hcs]; subst. constructor; [|by apply IH].
  unfold satisfies in *. by rewrite <- Hl, <- Hs, <- Hr.
Qed.

(** X10: [optimize.py] and [solve_allocation] with its fleet size 3528, its
    rate 2.0 and integer assignments write, on a table that has a row for
    every pair, problems that differ in their names only: the same
    variables, the same objective and, row by row, the same constraints, so
    the same valuations fit and the same are optimal. Both submit their
    problem once, and for one valuation the table of [optimize.py] is the
    table of [solve_allocation] with each assignment rounded to the nearest
    integer and each slack clamped at zero, row by row. *)
Theorem optimize_beside_solve_allocation (solver : Solver)
    (demand_df : list DemandRow) (log : Log) (sol : Solution) :
  covers demand_df = true →
  let m := Optimize.model demand_df in
  let p := written demand_df Optimize.FLEET_SIZE
             Optimize.TRIPS_PER_TAXI_PER_HOUR true None in
  (solve_allocation solver demand_df Optimize.FLEET_SIZE
     Optimize.TRIPS_PER_TAXI_PER_HOUR true None None log
   = (Ok (outcome demand_df Optimize.FLEET_SIZE Optimize.TRIPS_PER_TAXI_PER_HOUR
            true (solver log (mkSolverCall p None))),
      log ++ [mkSolverCall p None])
   ∧ snd (Optimize.main solver demand_df log) = log ++ [mkSolverCall m None])
  ∧ (p_name m ≠ p_name p ∧ var_names m ≠ var_names p
     ∧ x_cat m = x_cat p ∧ x_keys m = x_keys p ∧ u_keys m = u_keys p
     ∧ objective m = objective p
     ∧ Forall2 (λ cm cp, c_name cm ≠ c_name cp
                         ∧ c_lhs cm = c_lhs cp ∧ c_sense cm = c_sense cp
                         ∧ c_rhs cm = c_rhs cp) (constraints m) (constraints p))
  ∧ (∀ v, (feasible m v ↔ feasible p v) ∧ (optimal m v ↔ optimal p v))
  ∧ Forall2 (λ row orow,
        Optimize.sol_area orow = pickup_community_area row
        ∧ Optimize.sol_hour orow = hour row
        ∧ Optimize.sol_demand orow = demand row
        ∧ Optimize.assigned_taxis orow = Optimize.py_round (x_taxis row)
        ∧ Optimize.unmet_trips orow = Qmax 0 (unmet row))
      (allocations (outcome demand_df Optimize.FLEET_SIZE
                      Optimize.TRIPS_PER_TAXI_PER_HOUR true sol))
      (Optimize.rows demand_df sol).
Proof.
  intros Hc m p.
  assert (Forall2 (λ cm cp, c_name cm ≠ c_name cp
                            ∧ c_lhs cm = c_lhs cp ∧ c_sense cm = c_sense cp
                            ∧ c_rhs cm = c_rhs cp) (constraints m) (constraints p))
    as Hrows.
  { subst m p. cbn [Optimize.model written constraints].
    apply Forall2_app; apply Forall2_map_same; intros x _; by repeat split. }
  assert (Forall2 (λ cm cp, c_lhs cm = c_lhs cp ∧ c_sense cm = c_sense cp
                            ∧ c_rhs cm = c_rhs cp) (constraints m) (constraints p))
    as Hmp by (eapply Forall2_impl; [exact Hrows|]; by intros ? ? (_ & ? & ? & ?)).
  assert (Forall2 (λ cp cm, c_lhs cp = c_lhs cm ∧ c_sense cp = c_sense cm
                            ∧ c_rhs cp = c_rhs cm) (constraints p) (constraints m))
    as Hpm.
  { apply Forall2_flip. eapply Forall2_impl; [exact Hmp|].
    by intros ? ? (-> & -> & ->). }
  assert (∀ v, feasible m v ↔ feasible p v) as Hfeas.
  { intros v. split; [by apply same_rows_feasible|].
    by apply same_rows_feasible. }
  split; [split|split; [|split]].
  - by rewrite solve_allocation_covers.
  - unfold Optimize.main, bind, solve, lift, ret. cbn.
    by destruct (Optimize.objective_value _ _).
  - repeat split; try done; exact Hrows.
  - intros v. split; [apply Hfeas|].
    unfold optimal. change (objective m) with (objective p).
    split; intros [Hf Hbest]; (split; [by apply Hfeas|]);
      intros v' Hv'; apply Hbest; by apply Hfeas.
  - cbn [allocations outcome]. unfold Optimize.rows.
    change (Optimize.areas demand_df) with (areas demand_df).
    change (Optimize.hours demand_df) with (hours demand_df).
    induction (list_prod (areas demand_df) (hours demand_df)) as [|k keys IH];
      simpl; constructor; [|exact IH].
    unfold Optimize.row, extracted. cbn.
    repeat split; by destruct (value _ _).
Qed.

Lemma optimize_beside_solve_allocation_witness :
  let solver := Examples.constant (5 # 2) (-1) in
  let m := Optimize.model Examples.table_2x2 in
  let p := written Examples.table_2x2 Optimize.FLEET_SIZE
             Optimize.TRIPS_PER_TAXI_PER_HOUR true None in
  (solve_allocation solver Examples.table_2x2 Optimize.FLEET_SIZE
     Optimize.TRIPS_PER_TAXI_PER_HOUR true None None []
   = (Ok (outcome Examples.table_2x2 Optimize.FLEET_SIZE
            Optimize.TRIPS_PER_TAXI_PER_HOUR true (solver [] (mkSolverCall p None))),
      [] ++ [mkSolverCall p None])
   ∧ snd (Optimize.main solver Examples.table_2x2 []) = [] ++ [mkSolverCall m None])
  ∧ (∀ v, feasible m v ↔ feasible p v)
  ∧ Forall2 (λ row orow,
        Optimize.assigned_taxis orow = Optimize.py_round (x_taxis row)
        ∧ Optimize.unmet_trips orow = Qmax 0 (unmet row))
      (allocations (outcome Examples.table_2x2 Optimize.FLEET_SIZE
                      Optimize.TRIPS_PER_TAXI_PER_HOUR true
                      (solver [] (mkSolverCall m None))))
      (Optimize.rows Examples.table_2x2 (solver [] (mkSolverCall m None))).
Proof.
  intros solver m p.
  destruct (optimize_beside_solve_allocation solver Examples.table_2x2 []
              (solver [] (mkSolverCall m None)) eq_refl)
    as (Hruns & _ & Hsame & Hrows).
  split; [exact Hruns|]. split; [intros v; apply Hsame|].
  eapply Forall2_impl; [exact Hrows|]. by intros ? ? (_ & _ & _ & ? & ?).
Defined.

(** X11: in every row of the table of [optimize.py], [assigned_taxis] is
    within one half of the value the solver left in the assignment (0 when
    it left none), equals that value when it is an integer, and is not
    negative when that value is not; [unmet_trips] is never negative and is
    the value the solver left in the slack when that value is not negative. *)
Theorem optimize_rows_round_and_clamp (demand_df : list DemandRow) (sol : Solution) :
  Forall (λ row,
      let xv := Optimize.or_zero
                  (value sol (X (Optimize.sol_area row) (Optimize.sol_hour row))) in
      let uv := Optimize.or_zero
                  (value sol (U (Optimize.sol_area row) (Optimize.sol_hour row))) in
      (inject_Z (Optimize.assigned_taxis row) - (1 # 2) <= xv)%Q
      ∧ (xv <= inject_Z (Optimize.assigned_taxis row) + (1 # 2))%Q
      ∧ (∀ z, xv = inject_Z z → Optimize.assigned_taxis row = z)
      ∧ ((0 <= xv)%Q → 0 ≤ Optimize.assigned_taxis row)
      ∧ (0 <= Optimize.unmet_trips row)%Q
      ∧ ((0 <= uv)%Q → (Optimize.unmet_trips row == uv)%Q))
    (Optimize.rows demand_df sol).
Proof.
  apply Forall_forall. intros row Hrow.
  apply elem_of_map in Hrow as (k & -> & _).
  cbn [Optimize.row Optimize.sol_area Optimize.sol_hour Optimize.assigned_taxis
       Optimize.unmet_trips].
  set (xv := Optimize.or_zero (value sol (X k.1 k.2))).
  set (uv := Optimize.or_zero (value sol (U k.1 k.2))).
  destruct (py_round_near xv) as [Hlo Hhi].
  split; [done|]. split; [done|]. split; [|split; [|split]].
  - intros z ->. apply py_round_integer.
  - intros Hx. assert (inject_Z (-1) < inject_Z (Optimize.py_round xv))%Q as Hlt.
    { change (inject_Z (-1)) with (-1)%Q. lra. }
    rewrite <- Zlt_Qlt in Hlt. lia.
  - apply Q.le_max_l.
  - intros Hu. by apply Q.max_r.
Qed.

(** X12: [optimize.py] reaches the solver once for every demand table, also
    one that lacks pairs (their demand counts as 0.0): no lookup fails. It
    then stops at the printing of the total, with [TypeError], exactly when
    the solver left some slack variable without a value; otherwise it
    tabulates one row per pair of a zone and an hour. *)
Theorem optimize_main_outcome (solver : Solver) (demand_df : list DemandRow)
    (log : Log) :
  let keys := list_prod (Optimize.areas demand_df) (Optimize.hours demand_df) in
  let c := mkSolverCall (Optimize.model demand_df) None in
  let sol := solver log c in
  snd (Optimize.main solver demand_df log) = log ++ [c]
  ∧ ((∀ k, k ∈ keys → is_Some (value sol (U k.1 k.2))) →
     fst (Optimize.main solver demand_df log) = Ok (Optimize.rows demand_df sol))
  ∧ ((∃ k, k ∈ keys ∧ value sol (U k.1 k.2) = None) →
     fst (Optimize.main solver demand_df log) = Raise TypeError_round)
  ∧ map (λ row, (Optimize.sol_area row, Optimize.sol_hour row))
      (Optimize.rows demand_df sol) = keys.
Proof.
  intros keys c sol.
  assert (Optimize.objective_value (Optimize.model demand_df) sol
          = if forallb (λ k, bool_decide (is_Some (value sol (U k.1 k.2)))) keys
            then Some (eval (objective (Optimize.model demand_df)) (value sol))
            else None) as Hobj.
  { unfold Optimize.objective_value. cbn [Optimize.model objective].
    fold keys. by rewrite forallb_map. }
  unfold Optimize.main, bind, solve, lift, ret. cbn [fst snd].
  fold c sol. rewrite Hobj.
  split; [by destruct (forallb _ keys)|]. split; [|split].
  - intros Hall.
    assert (forallb (λ k, bool_decide (is_Some (value sol (U k.1 k.2)))) keys = true)
      as ->; [|done].
    apply forallb_forall. intros k Hk. apply bool_decide_eq_true, Hall.
    by apply list_elem_of_In.
  - intros (k & Hk & Hnone).
    assert (forallb (λ k, bool_decide (is_Some (value sol (U k.1 k.2)))) keys = false)
      as ->; [|done].
    apply not_true_iff_false. rewrite forallb_forall. intros Hall.
    specialize (Hall k (proj1 (list_elem_of_In _ _) Hk)).
    apply bool_decide_eq_true in Hall. rewrite Hnone in Hall. by destruct Hall.
  - unfold Optimize.rows. fold keys. rewrite map_map.
    rewrite <- (map_id keys) at 2. apply map_ext. by intros [].
Qed.

(** ** The typical day of [data_clean_up.py] *)

Section GroupFacts.
Context {K : Type} `{EqDecision K} (leb : K → K → bool).

Lemma groups_Permutation (keys : list K) :
  CleanUp.groups leb keys ≡ₚ remove_dups keys.
Proof. apply sort_stable_Permutation. Qed.

Lemma elem_of_groups (keys : list K) (k : K) :
  k ∈ CleanUp.groups leb keys ↔ k ∈ keys.
Proof. by rewrite groups_Permutation, elem_of_remove_dups. Qed.

Lemma NoDup_groups (keys : list K) : NoDup (CleanUp.groups leb keys).
Proof. rewrite groups_Permutation. apply NoDup_remove_dups. Qed.

Lemma filter_eq_NoDup (l : list K) (k : K) :
  NoDup l → filter (λ k', k' = k) l = if decide (k ∈ l) then [k] else [].
Proof.
  induction 1 as [|x l Hx Hl IH]; [done|].
  rewrite filter_cons. destruct (decide (x = k)) as [->|Hne].
  - rewrite IH, decide_False by done. rewrite decide_True by left. done.
  - rewrite IH. destruct (decide (k ∈ l)) as [Hin|Hin].
    + rewrite decide_True by (by right). done.
    + rewrite decide_False; [done|]. intros [->|?]%elem_of_cons; done.
Qed.

Lemma filter_key_map {A} (f : K → A) (l : list K) (k : K) :
  filter (λ r : K * A, r.1 = k) (map (λ k', (k', f k')) l)
  = map (λ k', (k', f k')) (filter (λ k', k' = k) l).
Proof.
  induction l as [|x l IH]; [done|].
  cbn [map]. rewrite !filter_cons. cbn [fst].
  destruct (decide (x = k)); cbn [map]; by rewrite IH.
Qed.

Lemma group_mean_filter (rows : list (K * Q)) (k : K) :
  filter (λ r, r.1 = k) (CleanUp.group_mean leb rows)
  = if decide (k ∈ map fst rows)
    then [(k, (Qsum (map snd (filter (λ r, r.1 = k) rows))
               / inject_Z (Z.of_nat (length (filter (λ r, r.1 = k) rows))))%Q)]
    else [].
Proof.
  unfold CleanUp.group_mean.
  rewrite (filter_key_map
    (λ k', (Qsum (map snd (filter (λ r : K * Q, r.1 = k') rows))
            / inject_Z (Z.of_nat (length (map snd (filter (λ r : K * Q, r.1 = k') rows)))))%Q)).
  rewrite filter_eq_NoDup by apply NoDup_groups.
  destruct (decide (k ∈ map fst rows)) as [Hin|Hin].
  - rewrite decide_True by (by apply elem_of_groups).
    cbn [map]. by rewrite length_map.
  - rewrite decide_False; [done|]. by rewrite elem_of_groups.
Qed.

Lemma merge_left_group_mean (left : list K) (rows : list (K * Q)) :
  CleanUp.merge_left left (CleanUp.group_mean leb rows)
  = map (λ k, (k, if decide (k ∈ map fst rows)
                  then Some (Qsum (map snd (filter (λ r, r.1 = k) rows))
                             / inject_Z (Z.of_nat (length (filter (λ r, r.1 = k) rows))))%Q
                  else None)) left.
Proof.
  induction left as [|k left IH]; [done|].
  change (CleanUp.merge_left (k :: left) (CleanUp.group_mean leb rows))
    with (match filter (λ r : K * Q, r.1 = k) (CleanUp.group_mean leb rows) with
          | [] => [(k, None)]
          | ms => map (λ r : K * Q, (k, Some r.2)) ms
          end ++ CleanUp.merge_left left (CleanUp.group_mean leb rows)).
  rewrite IH, group_mean_filter. rewrite (map_cons _ k left).
  by destruct (decide (k ∈ map fst rows)).
Qed.

End GroupFacts.



Import CleanUp.

Lemma typical_day_rows (raw : list RawTrip) :
  typical_day raw
  = map (λ k, let rows := map (λ row : Z * Z * Z * Z, (row.1.1.2, row.1.2, inject_Z row.2))
                            (daily (clean raw)) in
              (k.1, k.2,
               round3 (default 0%Q
                 (if decide (k ∈ map fst rows)
                  then Some (Qsum (map snd (filter (λ r, r.1 = k) rows))
                             / inject_Z (Z.of_nat (length (filter (λ r, r.1 = k) rows))))%Q
                  else None))))
      (full (clean raw)).
Proof.
  unfold typical_day, mean_over_dates, filled.
  rewrite merge_left_group_mean, map_map. done.
Qed.

(** The keys of the table are the full grid: the zones in ascending order,
    each with the hours 0 to 23. *)
Lemma typical_day_keys (raw : list RawTrip) :
  map (λ row, (area_of row, hour_of row)) (typical_day raw) = full (clean raw).
Proof.
  rewrite typical_day_rows, map_map. cbn [area_of hour_of fst snd].
  rewrite <- (map_id (full (clean raw))) at 2. apply map_ext. by intros [a h].
Qed.








(** X13: the table that [data_clean_up.py] writes has one row for each pair
    of a zone with a kept trip and an hour of the day: the zones in
    ascending order, each with the hours 0 to 23 in order, no pair twice,
    whatever the hours in which the zone has trips. *)
Theorem typical_day_grid (raw : list RawTrip) :
  map (λ row, (area_of row, hour_of row)) (typical_day raw)
  = list_prod (sorted (unique (map trip_area (clean raw)))) (map Z.of_nat (seq 0 24))
  ∧ NoDup (map (λ row, (area_of row, hour_of row)) (typical_day raw))
  ∧ length (typical_day raw)
    = (24 * length (unique (map trip_area (clean raw))))%nat
  ∧ ∀ a h, (a, h) ∈ map (λ row, (area_of row, hour_of row)) (typical_day raw)
           ↔ (∃ t, t ∈ clean raw ∧ trip_area t = a) ∧ 0 ≤ h < 24.
Proof.
  split; [apply typical_day_keys|].
  split.
  { rewrite typical_day_keys. apply NoDup_list_prod.
    - rewrite sorted_Permutation. apply NoDup_unique.
    - compute_done. }
  split.
  { rewrite <- (length_map (λ row, (area_of row, hour_of row))), typical_day_keys.
    unfold full. rewrite length_prod, (Permutation_length (sorted_Permutation _)).
    cbn. lia. }
  intros a h. rewrite typical_day_keys. unfold full.
  rewrite elem_of_list_prod, elem_of_sorted, elem_of_unique, elem_of_map. cbn [fst snd].
  assert (h ∈ hours_of_day ↔ 0 ≤ h < 24) as ->.
  { unfold hours_of_day. rewrite elem_of_map. split.
    - intros (n & -> & Hn%elem_of_seq). lia.
    - intros Hh. exists (Z.to_nat h). split; [lia|]. apply elem_of_seq. lia. }
  split; intros [(t & ? & ?) ?]; (split; [exists t|]; done).
Qed.

Lemma typical_day_Permutation_covers (raw : list RawTrip) (demand_df : list DemandRow) :
  demand_df ≡ₚ typical_day raw → covers demand_df = true.
Proof.
  intros Hp. apply covers_spec. intros [a h] [Ha Hh]%elem_of_list_prod.
  cbn [fst snd] in Ha, Hh.
  apply demand_dict_is_Some.
  assert (∀ k, k ∈ map (λ row, (area_of row, hour_of row)) demand_df
               ↔ k ∈ full (clean raw)) as Hkeys.
  { intros k. rewrite <- typical_day_keys, !elem_of_map.
    split; intros (row & ? & Hin); exists row; (split; [done|]);
      [by rewrite <- Hp|by rewrite Hp]. }
  apply Hkeys. unfold full. apply elem_of_list_prod. cbn [fst snd]. split.
  - apply elem_of_areas in Ha as (row & Hrow & <-).
    assert ((area_of row, hour_of row) ∈ full (clean raw)) as Hin
      by (apply Hkeys, elem_of_map; by exists row).
    by apply elem_of_list_prod in Hin as [? _].
  - apply elem_of_hours in Hh as (row & Hrow & <-).
    assert ((area_of row, hour_of row) ∈ full (clean raw)) as Hin
      by (apply Hkeys, elem_of_map; by exists row).
    by apply elem_of_list_prod in Hin as [_ ?].
Qed.

(** X14: the table that [data_clean_up.py] writes, with its rows in any
    order (that of the file, or that of [load_demand]), has a row for every
    pair of one of its zones and one of its hours; so [solve_allocation]
    never raises on it: it submits its problem and returns the outcome. *)
Theorem typical_day_feeds_solve_allocation (solver : Solver) (raw : list RawTrip)
    (demand_df : list DemandRow) (F : Z) (r : Q) (int_vars : bool)
    (hour_caps : option (gmap Z Z)) (time_limit : option Z) (log : Log) :
  demand_df ≡ₚ typical_day raw →
  covers demand_df = true
  ∧ solve_allocation solver demand_df F r int_vars hour_caps time_limit log
    = (Ok (outcome demand_df F r int_vars
             (solver log (submitted demand_df F r int_vars hour_caps time_limit))),
       log ++ [submitted demand_df F r int_vars hour_caps time_limit]).
Proof.
  intros Hp. pose proof (typical_day_Permutation_covers raw demand_df Hp) as Hc.
  split; [done|]. by rewrite solve_allocation_covers.
Qed.

Lemma typical_day_feeds_solve_allocation_witness :
  covers (typical_day Examples.raw_trips) = true
  ∧ solve_allocation Examples.silent (typical_day Examples.raw_trips) 10 2 true None None []
    = (Ok (outcome (typical_day Examples.raw_trips) 10 2 true
             (Examples.silent [] (submitted (typical_day Examples.raw_trips) 10 2 true None None))),
       [] ++ [submitted (typical_day Examples.raw_trips) 10 2 true None None]).
Proof.
  apply (typical_day_feeds_solve_allocation Examples.silent Examples.raw_trips). reflexivity.
Defined.


(** ** The map layers of [visualize.py] *)

Import Optimize Visualize.

Lemma max_assigned_ge_1 (df : list SolRow) : (1 <= max_assigned df)%Q.
Proof.
  unfold max_assigned. destruct (column_max _) as [m|]; [|lra].
  destruct (1 <? m) eqn:Hm; [|lra].
  apply Z.ltb_lt in Hm. change 1%Q with (inject_Z 1). rewrite <- Zle_Qle. lia.
Qed.

(** The groups of a key, taken in the order of a list of distinct keys that
    has them all, hold each row once. *)
Lemma flat_map_groups {A} (key : A → Z) (H : list Z) (l : list A) :
  NoDup H → (∀ x, x ∈ l → key x ∈ H) →
  flat_map (λ h, filter (λ x, key x = h) l) H ≡ₚ l.
Proof.
  intros HH. revert l. induction HH as [|h H Hh HH IH]; intros l Hin.
  - destruct l as [|x l]; [done|]. specialize (Hin x ltac:(left)).
    by apply not_elem_of_nil in Hin.
  - cbn [flat_map].
    transitivity (filter (λ x, key x = h) l ++ filter (λ x, ¬ key x = h) l);
      [|apply filter_app_complement].
    apply Permutation_app; [done|].
    assert (flat_map (λ h', filter (λ x, key x = h') l) H
            = flat_map (λ h', filter (λ x, key x = h') (filter (λ x, ¬ key x = h) l)) H)
      as ->.
    { clear IH Hin HH.
      induction H as [|h' H IHH]; [done|].
      cbn [flat_map]. rewrite IHH.
      - f_equal. rewrite list_filter_filter. apply list_filter_iff.
        intros x. split; [|tauto]. intros ->. split; [done|].
        intros ->. apply Hh. left.
      - intros ?. apply Hh. by right. }
    apply IH.
    intros x [Hx Hxl]%list_elem_of_filter.
    specialize (Hin x Hxl). apply elem_of_cons in Hin as [?|?]; done.
Qed.

(** Blocks of rows that carry the key of their block, laid out in a sorted
    order of the keys, are sorted by key. *)
Lemma Sorted_flat_map {A} (key : A → Z) (blocks : Z → list A) (H : list Z) :
  (∀ h x, x ∈ blocks h → key x = h) →
  Sorted Z.le H → Sorted Z.le (map key (flat_map blocks H)).
Proof.
  intros Hkey HH. apply StronglySorted_Sorted.
  apply Sorted_StronglySorted in HH; [|intros ???; lia].
  induction HH as [|h H HH IH Hall]; [constructor|].
  cbn [flat_map]. rewrite map_app.
  assert (∀ y, y ∈ map key (flat_map blocks H) → h ≤ y) as Hrest.
  { intros y Hy. apply elem_of_map in Hy as (x & -> & Hx).
    apply list_elem_of_In, in_flat_map in Hx as (h' & Hh' & Hx).
    rewrite Forall_forall in Hall.
    apply list_elem_of_In in Hx. rewrite (Hkey h' x Hx).
    apply Hall. by apply list_elem_of_In. }
  assert (∀ y, y ∈ map key (blocks h) → y = h) as Hblock.
  { intros y Hy. apply elem_of_map in Hy as (x & -> & Hx). by apply Hkey. }
  induction (map key (blocks h)) as [|y l IHl]; [exact IH|].
  cbn [app]. constructor.
  - apply IHl. intros ? ?. apply Hblock. by right.
  - apply Forall_app. split.
    + apply Forall_forall. intros z Hz.
      rewrite (Hblock y ltac:(left)), (Hblock z ltac:(by right)). lia.
    + apply Forall_forall. intros z Hz.
      rewrite (Hblock y ltac:(left)). by apply Hrest.
Qed.

Lemma popup_omap {G} (area_features : gmap Z G) (m : Q) (h : Z) (l : list SolRow) :
  map popup (omap (feature_of area_features m h) l)
  = filter (λ row, is_Some (area_features !! sol_area row)) l.
Proof.
  induction l as [|row l IH]; [done|].
  cbn [omap list_omap]. rewrite filter_cons. unfold feature_of at 1.
  destruct (area_features !! sol_area row) as [f|] eqn:Hf.
  - rewrite decide_True by (by eexists). cbn [map popup]. f_equal. exact IH.
  - rewrite decide_False by (by intros [? ?]). exact IH.
Qed.

(** X16: [visualize.py] draws one feature for each row of the solution
    table whose zone is on the map and none for the others, hour by hour in
    ascending order. The opacity of a feature is the assignment of its row
    divided by the greatest assignment of the table, or by 1.0 if that is
    greater, and capped at 0.9: the divisor is at least 1, the opacity
    never exceeds 0.9 and it is not negative when the assignment is not. *)
Theorem features_of_the_map {G} (area_features : gmap Z G) (df : list SolRow) :
  (1 <= max_assigned df)%Q
  ∧ map popup (features area_features df)
    ≡ₚ filter (λ row, is_Some (area_features !! sol_area row)) df
  ∧ Sorted Z.le (map time_hour (features area_features df))
  ∧ Forall (λ f,
      area_features !! sol_area (popup f) = Some (feat f)
      ∧ time_hour f = sol_hour (popup f)
      ∧ fill_opacity f
        = Qmin (9 # 10) (inject_Z (assigned_taxis (popup f)) / max_assigned df)
      ∧ (fill_opacity f <= 9 # 10)%Q
      ∧ (0 ≤ assigned_taxis (popup f) → (0 <= fill_opacity f)%Q))
    (features area_features df).
Proof.
  pose proof (max_assigned_ge_1 df) as Hm.
  split; [exact Hm|]. split; [|split].
  - unfold features.
    set (H := sorted (unique (map sol_hour df))).
    assert (∀ hs, map popup
              (flat_map (λ hour, omap (feature_of area_features (max_assigned df) hour)
                                   (filter (λ row, sol_hour row = hour) df)) hs)
            = flat_map (λ h, filter (λ row, sol_hour row = h)
                               (filter (λ row, is_Some (area_features !! sol_area row)) df))
                hs) as ->.
    { induction hs as [|h hs IH]; [done|].
      cbn [flat_map]. rewrite map_app, IH, popup_omap. f_equal.
      rewrite !list_filter_filter. apply list_filter_iff. tauto. }
    apply flat_map_groups.
    + unfold H. rewrite sorted_Permutation. apply NoDup_unique.
    + intros row [_ Hrow]%list_elem_of_filter.
      unfold H. apply elem_of_sorted, elem_of_unique, elem_of_map. by exists row.
  - unfold features. apply Sorted_flat_map; [|apply sorted_Sorted].
    intros h f Hf. apply list_elem_of_omap in Hf as (row & _ & Hf).
    unfold feature_of in Hf. destruct (area_features !! sol_area row); [|done].
    by injection Hf as <-.
  - apply Forall_forall. intros f Hf. unfold features in Hf.
    apply list_elem_of_In, in_flat_map in Hf as (h & _ & Hf).
    apply list_elem_of_In, list_elem_of_omap in Hf as (row & Hrow & Hf).
    apply list_elem_of_filter in Hrow as [Hh _].
    unfold feature_of in Hf.
    destruct (area_features !! sol_area row) as [g|] eqn:Hg; [|done].
    injection Hf as <-. cbn [popup feat time_hour fill_opacity].
    split; [done|]. split; [done|]. split; [done|].
    split; [apply Q.le_min_l|].
    intros Hpos. apply Q.min_glb; [done|].
    apply Qle_shift_div_l; [lra|]. rewrite Qmult_0_l.
    change 0%Q with (inject_Z 0). by rewrite <- Zle_Qle.
Qed.
